(** * A shallow embedding of [stomp.py]: the STOMP frame codec and the
      connection engine.

    Python byte strings are [string]; Python integers are [Z]; a raised
    exception is the [Raise] branch of [result].  A [dict] is an association
    list with unique keys kept in insertion order (the iteration order the
    serializer relies on); [set] is stdpp's [gset]. *)

From stdpp Require Import gmap strings list pretty.
From Stdlib Require Import ZArith Ascii Lia.

Local Open Scope Z_scope.

(* [simpl] unfolds an append whose first operand starts with a byte. *)
#[global] Arguments String.append !s1 s2 : simpl nomatch.

(** ** Python values, exceptions *)

(** The values stored in header dictionaries and in [no_receipt]: [None],
    integers ([msg_id], [len(body)]) and byte strings. *)
Inductive pyval :=
| PyNone
| PyInt (z : Z)
| PyStr (s : string).

#[global] Instance pyval_eq_dec : EqDecision pyval.
Proof. solve_decision. Defined.

Definition pyval_encode (v : pyval) : unit + (Z + string) :=
  match v with
  | PyNone => inl tt
  | PyInt z => inr (inl z)
  | PyStr s => inr (inr s)
  end.

Definition pyval_decode (x : unit + (Z + string)) : pyval :=
  match x with
  | inl _ => PyNone
  | inr (inl z) => PyInt z
  | inr (inr s) => PyStr s
  end.

#[global] Instance pyval_countable : Countable pyval.
Proof.
  apply (inj_countable' pyval_encode pyval_decode).
  intros []; reflexivity.
Defined.

(** The exceptions the module can raise.  Each [raise ValueError(...)] of
    the source has a constructor of its own, in place of its message
    text.  [ValueError_excess_data] holds the part of the message that
    varies, [repr(data[bytes_consumed:])[:100]]. *)
Inductive exn :=
| ValueError_invalid_command (command : string)
| ValueError_not_terminated
| ValueError_excess_data (shown : string)
| ValueError_incomplete (bytes_consumed : Z)
| ValueError_start_twice
| ValueError_expected_connected
| TypeError
| IndexError
| KeyError
| AttributeError
| StopIteration
| socket_error.

Inductive result (A : Type) :=
| Ok (a : A)
| Raise (e : exn).
Arguments Ok {A} a.
Arguments Raise {A} e.

#[global] Instance result_ret : MRet result := fun A a => Ok a.
#[global] Instance result_bind : MBind result := fun A B k r =>
  match r with
  | Ok a => k a
  | Raise e => Raise e
  end.

(** ** Byte-string operations of Python's [str] *)

Definition NL : string := String "010" EmptyString.
Definition NUL : string := String "000" EmptyString.

Definition len (s : string) : Z := Z.of_nat (String.length s).

(** [''.join(l)] and [sep.join(l)] are [String.concat]. *)
Definition join (sep : string) (l : list string) : string := String.concat sep l.

(** [s.lstrip('\n')]. *)
Fixpoint lstrip_nl (s : string) : string :=
  match s with
  | String c s' => if Ascii.eqb c "010" then lstrip_nl s' else s
  | EmptyString => EmptyString
  end.

(** [s.find(sep)]: the index of the first occurrence of [sep] in [s]. *)
Fixpoint find (sep s : string) : option nat :=
  if String.prefix sep s then Some 0%nat
  else match s with
       | EmptyString => None
       | String _ s' => S <$> find sep s'
       end.

(** [sep in s]. *)
Definition contains (sep s : string) : bool :=
  match find sep s with Some _ => true | None => false end.

Fixpoint drop_str (n : nat) (s : string) : string :=
  match n, s with
  | O, _ => s
  | S n', String _ s' => drop_str n' s'
  | S _, EmptyString => EmptyString
  end.

Fixpoint take_str (n : nat) (s : string) : string :=
  match n, s with
  | O, _ => EmptyString
  | S n', String c s' => String c (take_str n' s')
  | S _, EmptyString => EmptyString
  end.

(** [s.partition(sep)]: split at the first occurrence of [sep]; when [sep]
    does not occur the result is [(s, '', '')]. *)
Definition partition (sep s : string) : string * string * string :=
  match find sep s with
  | Some i => (take_str i s, sep, drop_str (i + String.length sep) s)
  | None => (s, EmptyString, EmptyString)
  end.

(** [s.split(c)] for a one-byte separator [c]: never the empty list,
    [''.split('\n') = ['']]. *)
Fixpoint split (c : ascii) (s : string) : list string :=
  match s with
  | EmptyString => [EmptyString]
  | String a s' =>
      if Ascii.eqb a c then EmptyString :: split c s'
      else match split c s' with
           | w :: ws => String a w :: ws
           | [] => [String a EmptyString]
           end
  end.

(** The bounds of a slice: a negative index counts from the end, and the
    result is clamped to [0 .. len s]. *)
Definition slice_index (s : string) (k : Z) : nat :=
  Z.to_nat (Z.min (len s) (Z.max 0 (if k <? 0 then k + len s else k))).

(** [s[k:]] *)
Definition slice_from (s : string) (k : Z) : string := drop_str (slice_index s k) s.
(** [s[:k]] *)
Definition slice_to (s : string) (k : Z) : string := take_str (slice_index s k) s.

(** [s[-1]]: [IndexError] on the empty string. *)
Fixpoint last_char (s : string) : result ascii :=
  match s with
  | EmptyString => Raise IndexError
  | String c EmptyString => Ok c
  | String _ s' => last_char s'
  end.

(** [s[0]] *)
Definition first_char (s : string) : result ascii :=
  match s with
  | EmptyString => Raise IndexError
  | String c _ => Ok c
  end.

(** [repr(s)] of a byte string, as Python 2 writes it: between single
    quotes, or between double quotes when the string holds a single quote
    and no double quote; the quote in use and the backslash are escaped
    with a backslash, tab, newline and carriage return are written [\t],
    [\n] and [\r], and every other byte below 32 or above 126 is written
    [\xNN] with two lower-case hexadecimal digits. *)
Definition hex_digit (n : N) : ascii :=
  match n with
  | 0%N => "0" | 1%N => "1" | 2%N => "2" | 3%N => "3"
  | 4%N => "4" | 5%N => "5" | 6%N => "6" | 7%N => "7"
  | 8%N => "8" | 9%N => "9" | 10%N => "a" | 11%N => "b"
  | 12%N => "c" | 13%N => "d" | 14%N => "e" | _ => "f"
  end%char.

Definition repr_byte (quote c : ascii) : string :=
  if Ascii.eqb c quote || Ascii.eqb c "092" then String "092" (String c "")
  else if Ascii.eqb c "009" then String "092" "t"
  else if Ascii.eqb c "010" then String "092" "n"
  else if Ascii.eqb c "013" then String "092" "r"
  else if (N_of_ascii c <? 32)%N || (127 <=? N_of_ascii c)%N then
    String "092"
      (String "x"
         (String (hex_digit (N_of_ascii c / 16))
            (String (hex_digit (N_of_ascii c mod 16)) "")))
  else String c "".

Fixpoint repr_bytes (quote : ascii) (s : string) : string :=
  match s with
  | EmptyString => EmptyString
  | String c s' => repr_byte quote c +:+ repr_bytes quote s'
  end.

Definition repr (s : string) : string :=
  let quote : ascii :=
    if contains (String "'" "") s && negb (contains (String "034" "") s)
    then "034"%char else "'"%char in
  String quote (repr_bytes quote s +:+ String quote "").

(** ** Dictionaries *)

Definition dict := list (string * pyval).

(** [k in d] *)
Fixpoint dict_mem (k : string) (d : dict) : bool :=
  match d with
  | [] => false
  | (k', _) :: d' => if String.eqb k' k then true else dict_mem k d'
  end.

(** [d.get(k)]: [None] for a missing key. *)
Fixpoint dict_get (k : string) (d : dict) : pyval :=
  match d with
  | [] => PyNone
  | (k', v) :: d' => if String.eqb k' k then v else dict_get k d'
  end.

(** [d[k]]: [KeyError] for a missing key. *)
Fixpoint dict_getitem (k : string) (d : dict) : result pyval :=
  match d with
  | [] => Raise KeyError
  | (k', v) :: d' => if String.eqb k' k then Ok v else dict_getitem k d'
  end.

(** [d[k] = v]: overwrite in place, or append a new key. *)
Fixpoint dict_set (k : string) (v : pyval) (d : dict) : dict :=
  match d with
  | [] => [(k, v)]
  | (k', v') :: d' =>
      if String.eqb k' k then (k', v) :: d' else (k', v') :: dict_set k v d'
  end.

(** [d.update(e)] *)
Definition dict_update (d e : dict) : dict :=
  fold_left (fun acc kv => dict_set (fst kv) (snd kv) acc) e d.

(** [str(v)] as used by ['{0}:{1}'.format(k, v)]. *)
Definition format_val (v : pyval) : string :=
  match v with
  | PyNone => "None"
  | PyInt z => pretty z
  | PyStr s => s
  end.

(** ** Frames *)

Definition CLIENT_CMDS : list string :=
  ["SEND"; "SUBSCRIBE"; "UNSUBSCRIBE"; "BEGIN"; "COMMIT"; "ABORT"; "ACK";
   "NACK"; "DISCONNECT"; "CONNECT"; "STOMP"].

Definition SERVER_CMDS : list string := ["CONNECTED"; "MESSAGE"; "RECEIPT"; "ERROR"].

Definition ALL_CMDS : list string := CLIENT_CMDS ++ SERVER_CMDS.

(** The named tuple [STOMP_Frame(command, headers, body)].  [headers] is
    [None] when the Python value is [None], as in [cls('HEARTBEAT', None)]. *)
Record Frame := mkFrame {
  command : string;
  headers : option dict;
  body : string
}.

#[global] Instance Frame_eq_dec : EqDecision Frame.
Proof. solve_decision. Defined.

(** [Frame.__new__] *)
Definition Frame_new (command : string) (headers : option dict) (body : string)
  : result Frame :=
  if negb (bool_decide (command ∈ ALL_CMDS)) then
    Raise (ValueError_invalid_command command)
  else Ok (mkFrame command headers body).

Definition format_header (kv : string * pyval) : string :=
  fst kv +:+ ":" +:+ format_val (snd kv).

(** [Frame.serialize]: the wire bytes, and the frame as the call leaves it
    (the header dictionary is updated in place). *)
Definition serialize (self : Frame) : result (string * Frame) :=
  match headers self with
  | None =>
      (* ['content-length' not in None] or [None.items()] *)
      if negb (String.eqb (body self) "") then Raise TypeError
      else Raise AttributeError
  | Some h =>
      let h' :=
        if negb (String.eqb (body self) "") && negb (dict_mem "content-length" h)
        then dict_set "content-length" (PyInt (len (body self))) h
        else h in
      Ok (command self +:+ NL +:+ join NL (map format_header h')
            +:+ NL +:+ NL +:+ body self +:+ NUL,
          mkFrame (command self) (Some h') (body self))
  end.

(** ** The incremental parser [Frame._parse_iter]

    The generator is a state machine whose states are its suspension
    points: each constructor below is one [yield] of the source together
    with the local variables still live there.  Resuming with
    [parser.send(data)] is [send]; what comes back is the new state and the
    yielded pair [(frame, consumed)]. *)

Inductive parser :=
| Created
    (* not started yet; [parser.next()] runs up to the first [yield] *)
| Leading
    (* [data = yield None, consumed] in the leading-newline loop *)
| AfterHeartbeat (data : string) (consumed : Z)
    (* [yield cls('HEARTBEAT', None), consumed + 1] *)
| InCommand (sofar : list string)
    (* the [yield] of the command loop *)
| InHeaders (command : string) (sofar : list string)
    (* the [yield] of the header loop *)
| InBodyLength (command : string) (headers : dict) (sofar : list string)
    (bytes_to_go : Z)
    (* the [yield] of the content-length loop *)
| InBodyNul (command : string) (headers : dict) (sofar : list string)
    (* the [yield] of the NUL-terminated loop *)
| Yielded
    (* [yield Frame(command, headers, body), consumed] *)
| Finished.
    (* the generator returned or raised *)

Definition yielded : Type := option Frame * Z.

(** [int + 1] on a header value; a [str] or [None] operand is a [TypeError]. *)
Definition add_one (v : pyval) : result Z :=
  match v with
  | PyInt z => Ok (z + 1)
  | PyStr _ | PyNone => Raise TypeError
  end.

(** [yield Frame(command, headers, body), consumed] after
    [sofar.append(end_of_body)]. *)
Definition emit (command : string) (headers : dict) (sofar : list string)
    (consumed : Z) : result (parser * yielded) :=
  let body := join "" sofar in
  frame ← Frame_new command (Some headers) body;
  Ok (Yielded, (Some frame, consumed)).

(** The content-length loop and what follows it, entered with the current
    [data], [consumed] and [bytes_to_go]. *)
Definition body_by_length (command : string) (headers : dict)
    (sofar : list string) (bytes_to_go consumed : Z) (data : string)
  : result (parser * yielded) :=
  if len data - consumed <? bytes_to_go then
    Ok (InBodyLength command headers (sofar ++ [data]) (bytes_to_go - len data),
        (None, consumed + len data))
  else
    let end_of_body := slice_to data bytes_to_go in
    c ← last_char end_of_body;
    if negb (Ascii.eqb c "000") then Raise ValueError_not_terminated
    else
      let consumed := consumed + len end_of_body in
      let end_of_body := slice_to end_of_body (-1) in
      emit command headers (sofar ++ [end_of_body]) consumed.

(** The NUL-terminated loop and what follows it. *)
Definition body_until_nul (command : string) (headers : dict)
    (sofar : list string) (consumed : Z) (data : string)
  : result (parser * yielded) :=
  if negb (contains NUL data) then
    Ok (InBodyNul command headers (sofar ++ [data]), (None, consumed + len data))
  else
    let '(end_of_body, sep, leftover) := partition NUL data in
    let consumed := consumed + len end_of_body + len sep in
    emit command headers (sofar ++ [end_of_body]) consumed.

(** [# parse body] *)
Definition parse_body (command : string) (headers : dict) (consumed : Z)
    (data : string) : result (parser * yielded) :=
  if dict_mem "content-length" headers then
    v ← dict_getitem "content-length" headers;
    bytes_to_go ← add_one v;
    body_by_length command headers [] bytes_to_go consumed data
  else body_until_nul command headers [] consumed data.

(** The [for cur_header in header_str.split('\n')] loop. *)
Definition parse_header_lines (header_str : string) : dict :=
  fold_left
    (fun headers cur_header =>
       let '(key, _, value) := partition ":" cur_header in
       dict_set key (PyStr value) headers)
    (split "010" header_str) [].

(** [# parse headers]: the header loop and what follows it. *)
Definition parse_headers (command : string) (sofar : list string)
    (consumed : Z) (data : string) : result (parser * yielded) :=
  if negb (contains (NL +:+ NL) data) then
    Ok (InHeaders command (sofar ++ [data]), (None, consumed + len data))
  else
    let sofar := sofar ++ [data] in
    let data := join "" sofar in
    let '(header_str, sep, data) := partition (NL +:+ NL) data in
    let consumed := consumed + len header_str + len sep in
    parse_body command (parse_header_lines header_str) consumed data.

(** [# parse command]: the command loop and what follows it. *)
Definition parse_command (sofar : list string) (consumed : Z) (data : string)
  : result (parser * yielded) :=
  if negb (contains NL data) then
    Ok (InCommand (sofar ++ [data]), (None, consumed + len data))
  else
    let '(end_, sep, data) := partition NL data in
    let consumed := consumed + len end_ + len sep in
    let command := join "" (sofar ++ [end_]) in
    parse_headers command [] consumed data.

(** One pass of the leading-newline loop on a fresh chunk, then the
    heartbeat test. *)
Definition parse_leading (chunk : string) : result (parser * yielded) :=
  let consumed := len chunk - len (lstrip_nl chunk) in
  let data := slice_from chunk consumed in
  if String.eqb data "" then Ok (Leading, (None, consumed))
  else
    c ← first_char data;
    if Ascii.eqb c "010" then
      frame ← Frame_new "HEARTBEAT" None "";
      Ok (AfterHeartbeat data consumed, (Some frame, consumed + 1))
    else parse_command [] consumed data.

(** [parser.next()] on the fresh generator. *)
Definition next (p : parser) : result (parser * yielded) :=
  match p with
  | Created => Ok (Leading, (None, 0))
  | _ => Raise TypeError
  end.

(** [parser.send(data)].  After each [yield] inside a loop the source
    resets [consumed = 0] and tests the loop condition on the new chunk. *)
Definition send (p : parser) (data : string) : result (parser * yielded) :=
  match p with
  | Created => Raise TypeError
  | Leading => parse_leading data
  | AfterHeartbeat data0 consumed => parse_command [] consumed data0
  | InCommand sofar => parse_command sofar 0 data
  | InHeaders command sofar => parse_headers command sofar 0 data
  | InBodyLength command headers sofar bytes_to_go =>
      body_by_length command headers sofar bytes_to_go 0 data
  | InBodyNul command headers sofar => body_until_nul command headers sofar 0 data
  | Yielded | Finished => Raise StopIteration
  end.

Definition _parse_iter : parser := Created.

(** [Frame.parse] *)
Definition parse (data : string) : result Frame :=
  '(parser, _) ← next _parse_iter;
  '(_, (frame, bytes_consumed)) ← send parser data;
  if negb (bytes_consumed =? len data) then
    Raise (ValueError_excess_data
             (take_str 100 (repr (slice_from data bytes_consumed))))
  else
    match frame with
    | None => Raise (ValueError_incomplete bytes_consumed)
    | Some frame => Ok frame
    end.

(** Feeding a list of chunks in order: the yielded pairs, one per chunk. *)
Fixpoint feed (p : parser) (chunks : list string) : result (list yielded) :=
  match chunks with
  | [] => Ok []
  | c :: cs =>
      '(p', y) ← send p c;
      ys ← feed p' cs;
      Ok (y :: ys)
  end.

(** ** The socket, as [Frame.parse_from_socket] uses it

    The receive side of a stream socket: [inbox] holds the bytes that have
    arrived and were not read yet, [wire] the segments still on their way;
    one more segment has arrived each time the socket is peeked. *)

Record socket := mkSocket {
  inbox : string;
  wire : list string
}.

Definition arrive (sock : socket) : socket :=
  match wire sock with
  | [] => sock
  | seg :: w => mkSocket (inbox sock +:+ seg) w
  end.

(** [sock.recv(n, socket.MSG_PEEK)]: up to [n] leading bytes, left in place. *)
Definition recv_peek (n : nat) (sock : socket) : string * socket :=
  let sock := arrive sock in
  (take_str n (inbox sock), sock).

(** [sock.recv(n)]: up to [n] leading bytes, removed from the socket. *)
Definition recv (n : Z) (sock : socket) : string * socket :=
  (take_str (Z.to_nat n) (inbox sock),
   mkSocket (drop_str (Z.to_nat n) (inbox sock)) (wire sock)).

(** Every byte the socket still has to deliver, in order. *)
Definition stream (sock : socket) : string := inbox sock +:+ join "" (wire sock).

(** One record per peek of [parse_from_socket]: the chunk peeked and what
    the parser yielded for it. *)
Definition history : Type := list (string * yielded).

(** The [while frame is None] loop of [parse_from_socket], entered with the
    values of [frame] and [bytes_consumed] from the previous [parser.send].
    The loop has no bound of its own, so the model takes [fuel]: [None]
    means that the loop is still running when the fuel runs out.  Besides
    the frame the result holds the socket as the call leaves it and the
    history of the peeks made inside the loop. *)
Fixpoint socket_loop (fuel : nat) (p : parser) (frame : option Frame)
    (bytes_consumed : Z) (sock : socket)
  : option (result (Frame * socket * history)) :=
  match frame with
  | Some frame => Some (Ok (frame, sock, []))
  | None =>
      match fuel with
      | O => None
      | S fuel' =>
          let '(_, sock) := recv bytes_consumed sock in
          let '(cur_data, sock) := recv_peek 4096 sock in
          match send p cur_data with
          | Raise e => Some (Raise e)
          | Ok (p', (frame, bytes_consumed)) =>
              match socket_loop fuel' p' frame bytes_consumed sock with
              | Some (Ok (f, sock', h)) =>
                  Some (Ok (f, sock', (cur_data, (frame, bytes_consumed)) :: h))
              | r => r
              end
          end
      end
  end.

(** [Frame.parse_from_socket]: the frame, the socket afterwards, and the
    history of all peeks. *)
Definition parse_from_socket_hist (fuel : nat) (sock : socket)
  : option (result (Frame * socket * history)) :=
  match next _parse_iter with
  | Raise e => Some (Raise e)
  | Ok (p, _) =>
      let '(cur_data, sock) := recv_peek 4096 sock in
      match send p cur_data with
      | Raise e => Some (Raise e)
      | Ok (p', (frame, bytes_consumed)) =>
          match socket_loop fuel p' frame bytes_consumed sock with
          | Some (Ok (f, sock', h)) =>
              Some (Ok (f, sock', (cur_data, (frame, bytes_consumed)) :: h))
          | r => r
          end
      end
  end.

Definition parse_from_socket (fuel : nat) (sock : socket)
  : option (result (Frame * socket)) :=
  match parse_from_socket_hist fuel sock with
  | Some (Ok (f, sock', _)) => Some (Ok (f, sock'))
  | Some (Raise e) => Some (Raise e)
  | None => None
  end.

(** ** The connection engine

    [Connection] keeps the fields that the modelled methods read or write.
    The outbound queue [send_q] is the list of queued frames, oldest first.
    The two [gevent.event.Event]s are their flags.  A handler is a callable
    of the application; the engine can only store it or call it, so it is
    modelled by its name. *)

Definition handler := string.

Record Connection := mkConnection {
  on_message : option handler;
  on_reciept : option handler;
  on_error : option handler;
  send_q : list Frame;
  sock_ready : bool;
  sock_broken : bool;
  stopping : bool;
  started : bool;
  session : pyval;
  server_info : pyval;
  msg_id : Z;
  sub_id : Z;
  no_receipt : gset pyval
}.

Definition set_send_q (q : list Frame) (c : Connection) : Connection :=
  mkConnection (on_message c) (on_reciept c) (on_error c) q (sock_ready c)
    (sock_broken c) (stopping c) (started c) (session c) (server_info c)
    (msg_id c) (sub_id c) (no_receipt c).

Definition set_sock_ready (b : bool) (c : Connection) : Connection :=
  mkConnection (on_message c) (on_reciept c) (on_error c) (send_q c) b
    (sock_broken c) (stopping c) (started c) (session c) (server_info c)
    (msg_id c) (sub_id c) (no_receipt c).

Definition set_sock_broken (b : bool) (c : Connection) : Connection :=
  mkConnection (on_message c) (on_reciept c) (on_error c) (send_q c)
    (sock_ready c) b (stopping c) (started c) (session c) (server_info c)
    (msg_id c) (sub_id c) (no_receipt c).

Definition set_stopping (b : bool) (c : Connection) : Connection :=
  mkConnection (on_message c) (on_reciept c) (on_error c) (send_q c)
    (sock_ready c) (sock_broken c) b (started c) (session c) (server_info c)
    (msg_id c) (sub_id c) (no_receipt c).

Definition set_started (b : bool) (c : Connection) : Connection :=
  mkConnection (on_message c) (on_reciept c) (on_error c) (send_q c)
    (sock_ready c) (sock_broken c) (stopping c) b (session c) (server_info c)
    (msg_id c) (sub_id c) (no_receipt c).

Definition set_session (s i : pyval) (c : Connection) : Connection :=
  mkConnection (on_message c) (on_reciept c) (on_error c) (send_q c)
    (sock_ready c) (sock_broken c) (stopping c) (started c) s i
    (msg_id c) (sub_id c) (no_receipt c).

Definition set_msg_id (n : Z) (c : Connection) : Connection :=
  mkConnection (on_message c) (on_reciept c) (on_error c) (send_q c)
    (sock_ready c) (sock_broken c) (stopping c) (started c) (session c)
    (server_info c) n (sub_id c) (no_receipt c).

Definition set_sub_id (n : Z) (c : Connection) : Connection :=
  mkConnection (on_message c) (on_reciept c) (on_error c) (send_q c)
    (sock_ready c) (sock_broken c) (stopping c) (started c) (session c)
    (server_info c) (msg_id c) n (no_receipt c).

Definition set_no_receipt (s : gset pyval) (c : Connection) : Connection :=
  mkConnection (on_message c) (on_reciept c) (on_error c) (send_q c)
    (sock_ready c) (sock_broken c) (stopping c) (started c) (session c)
    (server_info c) (msg_id c) (sub_id c) s.

(** [self.send_q.put(frame)] *)
Definition put (frame : Frame) (self : Connection) : Connection :=
  set_send_q (send_q self ++ [frame]) self.

(** *** The two signal flags

    Each [Event.set()] and [Event.clear()] is one step.  The three places
    that change the flags each run two of them in a row. *)

Inductive flag_op :=
| ready_set
| ready_clear
| broken_set
| broken_clear.

Definition apply_op (self : Connection) (op : flag_op) : Connection :=
  match op with
  | ready_set => set_sock_ready true self
  | ready_clear => set_sock_ready false self
  | broken_set => set_sock_broken true self
  | broken_clear => set_sock_broken false self
  end.

Definition run_ops (ops : list flag_op) (self : Connection) : Connection :=
  fold_left apply_op ops self.

(** [self.sock_broken.set(); self.sock_ready.clear()] in [start]. *)
Definition start_ops : list flag_op := [broken_set; ready_clear].
(** [self.sock_broken.clear(); self.sock_ready.set()] in [_reconnect]. *)
Definition reconnect_ops : list flag_op := [broken_clear; ready_set].
(** [self.sock_ready.clear(); self.sock_broken.set()] in the
    [except socket.error] handlers of [_run_send] and [_run_recv]. *)
Definition socket_error_ops : list flag_op := [ready_clear; broken_set].

(** [Connection.start], up to the spawning of the three greenlets. *)
Definition start (self : Connection) : result Connection :=
  if started self then Raise ValueError_start_twice
  else Ok (run_ops start_ops (set_started true self)).

(** [Connection.__init__] *)
Definition Connection_init (on_message on_reciept on_error : option handler)
  : result Connection :=
  start (mkConnection on_message on_reciept on_error [] false false false false
           PyNone PyNone 0 0 ∅).

(** [Connection.stop] *)
Definition stop (self : Connection) : Connection := set_stopping true self.

(** [Connection.send] *)
Definition Connection_send (self : Connection) (destination : string)
    (body : string) (extra_headers : option dict) : result Connection :=
  let headers := [("destination", PyStr destination); ("receipt", PyInt (msg_id self))] in
  let self := set_no_receipt (no_receipt self ∪ {[PyInt (msg_id self)]}) self in
  let self := set_msg_id (msg_id self + 1) self in
  let headers :=
    match extra_headers with
    | Some (kv :: e) => dict_update headers (kv :: e)
    | Some [] | None => headers
    end in
  frame ← Frame_new "SEND" (Some headers) body;
  Ok (put frame self).

(** [Connection.subscribe] *)
Definition subscribe (self : Connection) (destination : string)
  : result Connection :=
  let self := set_sub_id (sub_id self + 1) self in
  let headers := [("subscription", PyStr destination); ("id", PyInt (sub_id self));
                  ("ack", PyStr "auto")] in
  frame ← Frame_new "SUBSCRIBE" (Some headers) "";
  Ok (put frame self).

(** [Connection.send_frame] *)
Definition send_frame (self : Connection) (frame : Frame) : Connection :=
  put frame self.

(** [Connection._reconnect], from the point where the handshake I/O
    ([get_connection], [sendall] of the CONNECT frame, [parse_from_socket])
    has produced [resp] or raised.  The lines before that point, which
    replace the socket, are in [run_socket_fixer_pass] below. *)
Definition _reconnect (self : Connection) (io : result Frame) : result Connection :=
  resp ← io;
  if negb (String.eqb (command resp) "CONNECTED") then
    Raise ValueError_expected_connected
  else
    match headers resp with
    | None => Raise TypeError
    | Some h =>
        s ← dict_getitem "session" h;
        let self := set_session s (dict_get "server" h) self in
        Ok (run_ops reconnect_ops self)
    end.

(** One pass of the loop of [_run_socket_fixer] after [sock_broken.wait()]
    has returned: any exception of [_reconnect] is swallowed. *)
Definition run_socket_fixer_iter (self : Connection) (io : result Frame) : Connection :=
  match _reconnect self io with
  | Ok self' => self'
  | Raise _ => self
  end.

(** *** The socket of a connection

    [self.sock] and [self.sock_container[0]], which the record of the
    connection leaves out, a socket being known by a number, and the
    sockets handed to [async.killsock] so far, the latest first. *)
Record wiring := mkWiring {
  sock : option nat;
  sock_container : option nat;
  killed : list nat
}.

(** One pass of the loop of [_run_socket_fixer] after [sock_broken.wait()]
    has returned, with [_reconnect] from its first line.  The calls into
    other modules are given by what they return or raise: [killsock] for
    [async.killsock(self.sock)], [get_connection] for
    [context.get_context().get_connection(...)], and [handshake] for the
    [sendall] of the CONNECT frame followed by [parse_from_socket].  Any
    exception ends the pass and is swallowed by the loop; what was
    assigned before it stays assigned. *)
Definition run_socket_fixer_pass (self : Connection) (w : wiring)
    (killsock : result unit) (get_connection : result nat)
    (handshake : result Frame) : Connection * wiring :=
  (* [if self.sock: async.killsock(self.sock)] *)
  let '(w, went_on) :=
    match sock w with
    | Some s => (mkWiring (sock w) (sock_container w) (s :: killed w), killsock)
    | None => (w, Ok ())
    end in
  match went_on with
  | Raise _ => (self, w)
  | Ok _ =>
      match get_connection with
      | Raise _ => (self, w)
      | Ok s =>
          (* [self.sock = ...; self.sock_container[0] = self.sock] *)
          (run_socket_fixer_iter self handshake,
           mkWiring (Some s) (Some s) (killed w))
      end
  end.

(** The [except socket.error] handler shared by the two workers, up to
    [sock_ready.wait()]. *)
Definition on_socket_error (self : Connection) : Connection :=
  run_ops socket_error_ops self.

(** *** The sender

    One pass of the loop of [_run_send].  [sendall] is the transport:
    given the bytes, the write succeeds or raises.  [None]: [peek] blocks
    on the empty queue.  [cur] is the very object at the head of the queue,
    so the header update made by [serialize] shows in the queue. *)
Definition run_send_iter (self : Connection) (sendall : string -> result unit)
  : option (result Connection) :=
  match send_q self with
  | [] => None
  | cur :: rest =>
      match serialize cur with
      | Raise e => Some (Raise e)
      | Ok (serial_cur, cur') =>
          let self := set_send_q (cur' :: rest) self in
          match sendall serial_cur with
          | Ok _ =>
              (* [self.send_q.get()] *)
              Some (Ok (set_send_q (tl (send_q self)) self))
          | Raise socket_error => Some (Ok (on_socket_error self))
          | Raise e => Some (Raise e)
          end
      end
  end.

(** *** The sender's loop

    [_run_send] as a whole: the places where the greenlet can stand, and
    one step from such a place to the next.  At [AtReadyWait] the greenlet
    is in [self.sock_ready.wait()], before the loop or in the handler of
    [socket.error]; at [AtLoopTest] it is about to test
    [while not self.stopping]; at [AtPeek] it is in [self.send_q.peek()].
    [None]: the greenlet is blocked, in [wait] while [sock_ready] is not
    set, in [peek] on the empty queue.  Besides the next place and the
    connection a step gives the bytes that it has handed to [sendall], if
    it got that far. *)
Inductive sender_at :=
| AtReadyWait
| AtLoopTest
| AtPeek
| SenderReturned
| SenderRaised (e : exn).

Definition _run_send_step (sendall : string -> result unit) (at_ : sender_at)
    (self : Connection) : option (sender_at * Connection * option string) :=
  match at_ with
  | AtReadyWait =>
      if sock_ready self then Some (AtLoopTest, self, None) else None
  | AtLoopTest =>
      if stopping self then Some (SenderReturned, self, None)
      else Some (AtPeek, self, None)
  | AtPeek =>
      match send_q self with
      | [] => None
      | cur :: rest =>
          match serialize cur with
          | Raise e => Some (SenderRaised e, self, None)
          | Ok (serial_cur, cur') =>
              let self := set_send_q (cur' :: rest) self in
              match sendall serial_cur with
              | Ok _ =>
                  Some (AtLoopTest, set_send_q (tl (send_q self)) self,
                        Some serial_cur)
              | Raise socket_error =>
                  Some (AtReadyWait, on_socket_error self, Some serial_cur)
              | Raise e => Some (SenderRaised e, self, Some serial_cur)
              end
          end
      end
  | SenderReturned | SenderRaised _ => None
  end.

(** *** The receiver

    A call that the engine makes to a handler of the application. *)
Inductive call :=
| Call (h : handler) (destination : pyval) (headers : option dict) (body : string).

(** The dispatch on [cur.command] in [_run_recv]: the connection afterwards
    and the handler calls made on the way. *)
Definition recv_dispatch (self : Connection) (cur : Frame)
  : result (Connection * list call) :=
  (* [if cur.command == 'HEARTBEAT': pass] *)
  self ←
    (if String.eqb (command cur) "MESSAGE" then
       match headers cur with
       | None => Raise TypeError
       | Some h =>
           if dict_mem "ack" h then
             ack ← Frame_new "ACK" (Some []) "";
             Ok (put ack self)
           else Ok self
       end
     else Ok self);
  self ←
    (if String.eqb (command cur) "RECEIPT" then
       match headers cur with
       | None => Raise AttributeError
       | Some h =>
           if bool_decide (dict_get "receipt-id" h ∈ no_receipt self) then
             Ok (set_no_receipt (no_receipt self ∖ {[dict_get "receipt-id" h]}) self)
           else Ok self
       end
     else Ok self);
  (* [if cur.command == 'ERROR': pass] *)
  Ok (self, []).

(** One pass of the loop of [_run_recv], given what [parse_from_socket]
    returned or raised. *)
Definition run_recv_iter (self : Connection) (io : result Frame)
  : result (Connection * list call) :=
  match io with
  | Ok cur => recv_dispatch self cur
  | Raise socket_error => Ok (on_socket_error self, [])
  | Raise e => Raise e
  end.

(** ** The wire format in the words of the specification

    [COMMAND\n], then [key:value\n] for each header in iteration order,
    then [\n], the body, and one NUL byte. *)
Definition wire_format (command : string) (headers : dict) (body : string) : string :=
  command +:+ NL
    +:+ join "" (map (fun kv => format_header kv +:+ NL) headers)
    +:+ NL +:+ body +:+ NUL.

(** The frame that [parse] returns is the one whose serialization was
    parsed, where the serializer may have added [content-length]. *)
Definition round_trips (f : Frame) : Prop :=
  exists data f', serialize f = Ok (data, f') /\ parse data = Ok f'.

(** The byte [c] does not occur in [s]. *)
Fixpoint no_byte (c : ascii) (s : string) : bool :=
  match s with
  | EmptyString => true
  | String a s' => negb (Ascii.eqb a c) && no_byte c s'
  end.

(** The frames for which the round trip does hold: a valid command, no
    body, at least one header, and headers that the wire format can carry:
    distinct keys without [':'] or newline, none of them [content-length],
    and byte-string values without newline. *)
Definition header_ok (kv : string * pyval) : Prop :=
  no_byte ":" kv.1 = true /\ no_byte "010" kv.1 = true /\
  kv.1 <> "content-length" /\
  exists s, kv.2 = PyStr s /\ no_byte "010" s = true.

Definition plain_frame (f : Frame) : Prop :=
  command f ∈ ALL_CMDS /\ body f = "" /\
  exists h, headers f = Some h /\ h <> [] /\ NoDup h.*1 /\ Forall header_ok h.

(** ** Sample data *)

Definition ack_frame : Frame := mkFrame "ACK" (Some []) "".

Definition hello_frame : Frame :=
  mkFrame "SEND" (Some [("destination", PyStr "/queue/x")]) "hello".

(** [SEND\na:b\n\n\0] *)
Definition small_frame_bytes : string :=
  "SEND" +:+ NL +:+ "a:b" +:+ NL +:+ NL +:+ NUL.

Definition small_frame : Frame := mkFrame "SEND" (Some [("a", PyStr "b")]) "".

(** [SEND\ncontent-length:3\n\nabc\0] *)
Definition length_framed_bytes : string :=
  "SEND" +:+ NL +:+ "content-length:3" +:+ NL +:+ NL +:+ "abc" +:+ NUL.

(** [RECEIPT\nreceipt-id:0\n\n\0] *)
Definition receipt_bytes : string :=
  "RECEIPT" +:+ NL +:+ "receipt-id:0" +:+ NL +:+ NL +:+ NUL.

(** A fresh connection on which [send("/queue/x", "hello")] was called. *)
Definition after_first_send : result Connection :=
  self ← Connection_init None None None;
  Connection_send self "/queue/x" "hello" None.

(** A started connection with a registered message handler, in the READY
    state. *)
Definition listening : Connection :=
  mkConnection (Some "handle_message") None None [] true false false true
    (PyStr "session-1") PyNone 0 0 ∅.

Definition message_frame : Frame :=
  mkFrame "MESSAGE"
    (Some [("destination", PyStr "/queue/x"); ("message-id", PyStr "7")]) "hello".

(** [small_frame_bytes] cut between the two newlines that end the header
    block, and cut inside the header block. *)
Definition cut_between_newlines : list string :=
  ["SEND" +:+ NL +:+ "a:b" +:+ NL; NL +:+ NUL].

Definition cut_inside_headers : list string :=
  ["SEND" +:+ NL +:+ "a"; ":b" +:+ NL +:+ NL +:+ NUL].

(** The connection as [Connection.__init__] returns it. *)
Definition just_started : Connection :=
  mkConnection None None None [] false true false true PyNone PyNone 0 0 ∅.

(** A socket on which a SEND frame arrives in three segments, the last one
    together with the first bytes of the next frame. *)
Definition two_frames_socket : socket :=
  mkSocket ""
    ["SEND" +:+ NL; "a:b" +:+ NL +:+ NL; "xyz" +:+ NUL +:+ "MESSAGE"].

(** The claim that a received MESSAGE frame is handed to [on_message]. *)
Definition handed_to_on_message (self : Connection) (cur : Frame) : Prop :=
  exists h d self' calls,
    on_message self = Some h /\
    headers cur = Some d /\
    recv_dispatch self cur = Ok (self', calls) /\
    Call h (dict_get "destination" d) (headers cur) (body cur) ∈ calls.

(** ** Runs of the engine, for the flag invariant

    While the engine runs the flags are changed by two kinds of transition:
    the reconnector finishes a handshake, or a worker catches
    [socket.error].  A run is taken here to be a sequence of whole
    transitions, the two flag operations of each next to each other: that
    no other greenlet runs between an [Event.clear()] and the
    [Event.set()] after it is a matter of the scheduler, which this module
    does not contain, and is the condition under which the runs below
    are the runs of the engine. *)

Inductive transition :=
| Reconnected
| SocketError.

Definition ops_of (t : transition) : list flag_op :=
  match t with
  | Reconnected => reconnect_ops
  | SocketError => socket_error_ops
  end.

Definition ops_of_run (ts : list transition) : list flag_op :=
  List.concat (map ops_of ts).

(** The states passed through while [ops] run, one after each operation. *)
Fixpoint visited (ops : list flag_op) (self : Connection) : list Connection :=
  match ops with
  | [] => []
  | op :: ops' => apply_op self op :: visited ops' (apply_op self op)
  end.

Definition exactly_one (self : Connection) : bool :=
  xorb (sock_ready self) (sock_broken self).

Definition both_set (self : Connection) : bool :=
  sock_ready self && sock_broken self.

Definition both_clear (self : Connection) : bool :=
  negb (sock_ready self) && negb (sock_broken self).

(** The claim that exactly one flag holds after every single flag
    operation of a run. *)
Definition exclusive_at_every_step (self : Connection) (ts : list transition) : Prop :=
  Forall (fun s => exactly_one s = true) (visited (ops_of_run ts) self).

(** The state in the middle of a transition, after the first of its two
    flag operations. *)
Definition halfway (t : transition) (self : Connection) : Connection :=
  match ops_of t with
  | op :: _ => apply_op self op
  | [] => self
  end.

(** ** What [parse_from_socket] removes from the socket

    The socket after each amount in [consumed] was removed by a
    [sock.recv(n)] that was followed by a peek. *)
Definition replay (sock : socket) (consumed : list Z) : socket :=
  fold_left (fun s n => arrive (recv n s).2) consumed sock.

Definition is_incomplete (e : string * yielded) : Prop := e.2.1 = None.

(** What a resumption of the parser yields: when it is a frame, the
    command of the frame is a member of [ALL_CMDS]. *)
Definition yields_command (r : result (parser * yielded)) : Prop :=
  forall p f n, r = Ok (p, (Some f, n)) -> command f ∈ ALL_CMDS.

(** The header values that the parser stores are byte strings. *)
Definition is_str (v : pyval) : Prop := exists s, v = PyStr s.

Definition str_values (d : dict) : Prop := Forall (fun kv => is_str kv.2) d.

(** The states that the parser reaches hold parsed headers only, and a
    resumption of the parser keeps it so: [sound_resumption r] says that
    the state and the frame in [r], if any, have byte-string header
    values. *)
Definition parser_ok (p : parser) : Prop :=
  match p with
  | InBodyLength _ h _ _ | InBodyNul _ h _ => str_values h
  | _ => True
  end.

Definition frame_ok (f : Frame) : Prop :=
  exists h, headers f = Some h /\ str_values h.

Definition sound_resumption (r : result (parser * yielded)) : Prop :=
  forall p fr n, r = Ok (p, (fr, n)) ->
    parser_ok p /\ forall f, fr = Some f -> frame_ok f.

(** The receipt ids that [Connection.send] records are integers. *)
Definition int_receipts (self : Connection) : Prop :=
  forall v, v ∈ no_receipt self -> exists z, v = PyInt z.

(** The same resumption with [k] more bytes reported consumed. *)
Definition shift (k : Z) (r : result (parser * yielded)) : result (parser * yielded) :=
  match r with
  | Ok (p, (fr, n)) => Ok (p, (fr, n + k))
  | Raise e => Raise e
  end.

(** What a phase of the parser reports when it is entered with [data],
    [consumed] bytes of the chunk counted before: a count between
    [consumed] and the end of the chunk, and the end of the chunk when no
    frame is complete. *)
Definition accounts (consumed : Z) (data : string)
    (r : result (parser * yielded)) : Prop :=
  forall p fr n, r = Ok (p, (fr, n)) ->
    consumed <= n <= consumed + len data /\
    (fr = None -> n = consumed + len data).

(** The suspension points from which the count of the next chunk is exact. *)
Definition counts_exactly (p : parser) : Prop :=
  match p with
  | Leading | InCommand _ | InBodyNul _ _ _ => True
  | _ => False
  end.

(** A resumption that yields a frame leaves the generator at its last
    [yield]. *)
Definition ends_parser (r : result (parser * yielded)) : Prop :=
  forall p f n, r = Ok (p, (Some f, n)) -> p = Yielded.

(** A command line as it can stand on the wire: not empty and without a
    newline. *)
Definition command_line (command : string) : Prop :=
  command <> "" /\ no_byte "010" command = true.

(** ** More of the session facade *)

(** [Connection.disconnect]: the frame is queued, and [wait], a stub,
    returns at once. *)
Definition disconnect (self : Connection) : result Connection :=
  frame ← Frame_new "DISCONNECT" (Some []) "";
  Ok (put frame self).

(** [LARClient.send] on the client's connection, from the point where
    [async.get_cur_correlation_id()] and [asf.serdes.vo2compbin(vo)] have
    returned: neither function is part of this module, and what they
    returned, the correlation id and a byte string for the body, is
    given. *)
Definition LARClient_send (conn : Connection) (body event_name : string)
    (correlation_id : pyval) : result Connection :=
  let headers := [("event_name", PyStr event_name);
                  ("correlation_id", correlation_id)] in
  Connection_send conn "/queue/relaydasf_msgs" body (Some headers).

(** ** The engine as a whole

    What can happen to a connection, one event at a time: a call of the
    facade, or the end of one pass of a worker's loop.  A greenlet runs
    until it blocks, and within a pass every change of the connection comes
    after the last blocking call (the write, the read, the handshake),
    but for the header that [serialize] adds to the frame at the head of
    the queue, which only the sender reads.  So the passes and the calls
    follow one another without overlapping. *)
Inductive event :=
| CallSend (destination body : string) (extra_headers : option dict)
| CallSubscribe (destination : string)
| CallDisconnect
| CallSendFrame (frame : Frame)
| CallStart
| CallStop
| SenderPass (written : bool)
    (* [_run_send]: the write succeeded, or raised [socket.error] *)
| ReceiverPass (io : result Frame)
    (* [_run_recv]: what [parse_from_socket] returned or raised *)
| FixerPass (io : result Frame).
    (* [_run_socket_fixer]: what the handshake returned or raised *)

Definition transport (written : bool) (data : string) : result unit :=
  if written then Ok () else Raise socket_error.

(** The connection after an event.  A call or a pass that raises leaves
    the connection as it was: [start], the dispatch of the receiver, the
    serializer and the handshake raise before they change anything, and
    [send], [subscribe] and [disconnect] build frames of valid commands.
    The sender does nothing on an empty queue, where [peek] blocks, and
    the reconnector nothing while [sock_broken] is not set, where
    [sock_broken.wait()] blocks.  The loop tests on [stopping] are left
    out: a worker that is blocked inside a pass when [stop] is called
    still finishes that pass, and what is proved of all sequences of
    events holds of those that the tests allow. *)
Definition engine_step (self : Connection) (ev : event) : Connection :=
  match ev with
  | CallSend destination body extra_headers =>
      match Connection_send self destination body extra_headers with
      | Ok self' => self'
      | Raise _ => self
      end
  | CallSubscribe destination =>
      match subscribe self destination with Ok self' => self' | Raise _ => self end
  | CallDisconnect =>
      match disconnect self with Ok self' => self' | Raise _ => self end
  | CallSendFrame frame => send_frame self frame
  | CallStart =>
      match start self with Ok self' => self' | Raise _ => self end
  | CallStop => stop self
  | SenderPass written =>
      match run_send_iter self (transport written) with
      | Some (Ok self') => self'
      | Some (Raise _) | None => self
      end
  | ReceiverPass io =>
      match run_recv_iter self io with
      | Ok (self', _) => self'
      | Raise _ => self
      end
  | FixerPass io =>
      if sock_broken self then run_socket_fixer_iter self io else self
  end.

Definition engine_run (evs : list event) (self : Connection) : Connection :=
  fold_left engine_step evs self.





(** The number of calls of [send] and of [subscribe] among the events. *)
Definition is_send (ev : event) : bool :=
  match ev with CallSend _ _ _ => true | _ => false end.

Definition is_subscribe (ev : event) : bool :=
  match ev with CallSubscribe _ => true | _ => false end.

Fixpoint sends_in (evs : list event) : Z :=
  match evs with
  | [] => 0
  | ev :: evs' => (if is_send ev then 1 else 0) + sends_in evs'
  end.

Fixpoint subscriptions_in (evs : list event) : Z :=
  match evs with
  | [] => 0
  | ev :: evs' => (if is_subscribe ev then 1 else 0) + subscriptions_in evs'
  end.

(** The frames that the receiver takes off the socket are those that the
    parser has built. *)
Definition from_parser (ev : event) : Prop :=
  match ev with
  | ReceiverPass (Ok cur) => frame_ok cur
  | _ => True
  end.

(** What happens to a connection while the sender is blocked: anything
    but a pass of the sender. *)
Definition other_than_sender (ev : event) : Prop :=
  match ev with
  | SenderPass _ => False
  | _ => True
  end.

(** The headers of [send] before [extra_headers] are merged in. *)
Definition send_defaults (self : Connection) (destination : string) : dict :=
  [("destination", PyStr destination); ("receipt", PyInt (msg_id self))].

(** The suspension points at which the parser waits for the rest of a
    frame, or for the first byte of one, with parsed headers only. *)
Definition waiting (p : parser) : Prop :=
  match p with
  | Leading | InCommand _ | InHeaders _ _ | InBodyNul _ _ _ => True
  | _ => False
  end.

(** * Properties *)

(** ** Byte strings *)

Lemma str_app_assoc (a b c : string) : (a +:+ b) +:+ c = a +:+ b +:+ c.
Proof. induction a as [|x a IH]; simpl; [reflexivity|by rewrite IH]. Qed.

Lemma str_app_nil_r (a : string) : a +:+ "" = a.
Proof. induction a as [|x a IH]; simpl; [reflexivity|by rewrite IH]. Qed.

Lemma str_length_app (a b : string) :
  String.length (a +:+ b) = (String.length a + String.length b)%nat.
Proof. induction a as [|x a IH]; simpl; [reflexivity|by rewrite IH]. Qed.

Lemma len_app (a b : string) : len (a +:+ b) = len a + len b.
Proof. unfold len. rewrite str_length_app. lia. Qed.

Lemma len_nonneg (a : string) : 0 <= len a.
Proof. unfold len. lia. Qed.

(** Joining lines with a newline and closing the last line is the same as
    closing every line. *)
Lemma join_lines (l : list string) :
  l <> [] -> join NL l +:+ NL = join "" (map (fun x => x +:+ NL) l).
Proof.
  induction l as [|x l IH]; [done|]. intros _.
  destruct l as [|y l].
  - reflexivity.
  - change (join NL (x :: y :: l)) with (x +:+ NL +:+ join NL (y :: l)).
    change (join "" (map (fun x => x +:+ NL) (x :: y :: l)))
      with ((x +:+ NL) +:+ "" +:+ join "" (map (fun x => x +:+ NL) (y :: l))).
    rewrite <- IH by done. simpl. by rewrite !str_app_assoc.
Qed.

(** ** Searching in byte strings *)

Lemma prefix_cons c s a t :
  String.prefix (String c s) (String a t) = Ascii.eqb c a && String.prefix s t.
Proof.
  cbn [String.prefix]. destruct (ascii_dec c a) as [->|Hne].
  - by rewrite Ascii.eqb_refl.
  - apply Ascii.eqb_neq in Hne. by rewrite Hne.
Qed.

Lemma prefix_nil t : String.prefix "" t = true.
Proof. by destruct t. Qed.

Lemma prefix_byte c a t :
  String.prefix (String c "") (String a t) = Ascii.eqb c a.
Proof. rewrite prefix_cons, prefix_nil. apply andb_true_r. Qed.

(** The first occurrence of a byte that is not in [s] is past [s]. *)
Lemma find_byte_app c s t :
  no_byte c s = true ->
  find (String c "") (s +:+ String c t) = Some (String.length s).
Proof.
  induction s as [|a s IH]; intros H.
  - cbn [String.append find]. rewrite prefix_byte, Ascii.eqb_refl. reflexivity.
  - simpl in H. apply andb_prop in H as [Ha Hs].
    cbn [String.append find]. rewrite prefix_byte.
    rewrite Ascii.eqb_sym. apply negb_true_iff in Ha. rewrite Ha.
    rewrite (IH Hs). reflexivity.
Qed.

Lemma find_byte_absent c s :
  no_byte c s = true -> find (String c "") s = None.
Proof.
  induction s as [|a s IH]; intros H; [reflexivity|].
  simpl in H. apply andb_prop in H as [Ha Hs].
  cbn [find]. rewrite prefix_byte, Ascii.eqb_sym.
  apply negb_true_iff in Ha. rewrite Ha, (IH Hs). reflexivity.
Qed.

Lemma take_str_app s t : take_str (String.length s) (s +:+ t) = s.
Proof. induction s as [|a s IH]; simpl; [by destruct t|by rewrite IH]. Qed.

Lemma drop_str_app s t : drop_str (String.length s) (s +:+ t) = t.
Proof. induction s as [|a s IH]; simpl; [reflexivity|exact IH]. Qed.

Lemma drop_str_app_sep s sep t :
  drop_str (String.length s + String.length sep) (s +:+ sep +:+ t) = t.
Proof.
  rewrite <- str_app_assoc, <- str_length_app. apply drop_str_app.
Qed.

Lemma partition_byte c s t :
  no_byte c s = true ->
  partition (String c "") (s +:+ String c t) = (s, String c "", t).
Proof.
  intros H. unfold partition. rewrite (find_byte_app c s t H).
  rewrite take_str_app.
  change (String c t) with (String c "" +:+ t). by rewrite drop_str_app_sep.
Qed.

(** Two newlines in a row. *)
Lemma find_nlnl_skip s t :
  no_byte "010" s = true ->
  find (NL +:+ NL) (s +:+ t) = (fun n => String.length s + n)%nat <$> find (NL +:+ NL) t.
Proof.
  induction s as [|a s IH]; intros H.
  - simpl String.append. by destruct (find _ t).
  - simpl in H. apply andb_prop in H as [Ha Hs]. apply negb_true_iff in Ha.
    cbn [String.append find].
    assert (String.prefix (NL +:+ NL) (String a (s +:+ t)) = false) as ->.
    { change (NL +:+ NL) with (String "010" NL).
      by rewrite prefix_cons, Ascii.eqb_sym, Ha. }
    rewrite (IH Hs). by destruct (find _ t).
Qed.

Lemma find_nlnl_here t : find (NL +:+ NL) (NL +:+ NL +:+ t) = Some 0%nat.
Proof.
  change (NL +:+ NL +:+ t) with (String "010" (String "010" t)).
  change (NL +:+ NL) with (String "010" (String "010" "")).
  cbn [find]. by rewrite !prefix_cons, prefix_nil.
Qed.

Lemma find_nlnl_step a t :
  Ascii.eqb a "010" = false ->
  find (NL +:+ NL) (NL +:+ String a t) = S <$> find (NL +:+ NL) (String a t).
Proof.
  intros Ha.
  change (NL +:+ String a t) with (String "010" (String a t)).
  change (NL +:+ NL) with (String "010" (String "010" "")).
  cbn [find]. rewrite !prefix_cons, prefix_nil, (Ascii.eqb_sym _ a), Ha.
  reflexivity.
Qed.

(** ** Header lines *)

Lemma join_cons_cons sep x y l :
  join sep (x :: y :: l) = x +:+ sep +:+ join sep (y :: l).
Proof. reflexivity. Qed.

Lemma join_head sep a t l : exists t', join sep (String a t :: l) = String a t'.
Proof. destruct l; [by exists t|]. rewrite join_cons_cons. by eexists. Qed.

(** The header block ends where its lines end: no line is empty, so the
    first two newlines in a row are the ones that follow the last line. *)
Lemma find_end_of_headers lines : forall rest,
  lines <> [] ->
  Forall (fun l => l <> "" /\ no_byte "010" l = true) lines ->
  find (NL +:+ NL) (join NL lines +:+ NL +:+ NL +:+ rest)
    = Some (String.length (join NL lines)).
Proof.
  induction lines as [|l lines IH]; [done|]. intros rest _ H.
  inversion H as [|? ? [Hne Hl] Hls]; subst.
  destruct lines as [|l2 lines].
  - change (join NL [l]) with l.
    rewrite (find_nlnl_skip _ _ Hl), find_nlnl_here. simpl. by rewrite Nat.add_0_r.
  - rewrite join_cons_cons, !str_app_assoc, (find_nlnl_skip _ _ Hl).
    inversion Hls as [|? ? [Hne2 Hl2] _]; subst.
    destruct l2 as [|a t]; [done|].
    assert (Ascii.eqb a "010" = false) as Ha.
    { simpl in Hl2. apply andb_prop in Hl2 as [Ha _]. by apply negb_true_iff. }
    specialize (IH rest ltac:(done) Hls).
    destruct (join_head NL a t lines) as [t' E].
    rewrite !str_length_app. rewrite E in IH |- *.
    cbn [String.append] in IH |- *.
    rewrite (find_nlnl_step a _ Ha), IH. simpl. f_equal; lia.
Qed.

Lemma split_no_byte c l : no_byte c l = true -> split c l = [l].
Proof.
  induction l as [|a l IH]; intros H; [reflexivity|].
  simpl in H. apply andb_prop in H as [Ha Hl]. apply negb_true_iff in Ha.
  simpl. by rewrite Ha, (IH Hl).
Qed.

Lemma split_app c l t :
  no_byte c l = true -> split c (l +:+ String c t) = l :: split c t.
Proof.
  induction l as [|a l IH]; intros H.
  - simpl. by rewrite Ascii.eqb_refl.
  - simpl in H. apply andb_prop in H as [Ha Hl]. apply negb_true_iff in Ha.
    simpl. by rewrite Ha, (IH Hl).
Qed.

Lemma split_join lines :
  lines <> [] -> Forall (fun l => no_byte "010" l = true) lines ->
  split "010" (join NL lines) = lines.
Proof.
  induction lines as [|l lines IH]; [done|]. intros _ H.
  inversion H as [|? ? Hl Hls]; subst.
  destruct lines as [|l2 lines].
  - by apply split_no_byte.
  - rewrite join_cons_cons. change (NL +:+ ?t) with (String "010" t).
    rewrite (split_app _ _ _ Hl), IH by done. reflexivity.
Qed.

(** ** Dictionaries *)

Lemma dict_set_fresh k v (d : dict) : k ∉ d.*1 -> dict_set k v d = d ++ [(k, v)].
Proof.
  induction d as [|[k' v'] d IH]; simpl; intros H; [reflexivity|].
  apply not_elem_of_cons in H as [Hne H].
  assert (String.eqb k' k = false) as -> by (apply String.eqb_neq; congruence).
  by rewrite IH.
Qed.

Lemma dict_mem_absent k (d : dict) : k ∉ d.*1 -> dict_mem k d = false.
Proof.
  induction d as [|[k' v'] d IH]; simpl; intros H; [reflexivity|].
  apply not_elem_of_cons in H as [Hne H].
  assert (String.eqb k' k = false) as -> by (apply String.eqb_neq; congruence).
  by apply IH.
Qed.

Lemma format_header_ok kv :
  header_ok kv ->
  no_byte "010" (format_header kv) = true /\ format_header kv <> "" /\
  partition ":" (format_header kv) = (kv.1, ":", format_val kv.2) /\
  PyStr (format_val kv.2) = kv.2.
Proof.
  destruct kv as [k v]. unfold header_ok, format_header. simpl.
  intros (Hc & Hn & _ & s & -> & Hs). simpl.
  repeat split.
  - clear Hc. induction k as [|a k IH]; simpl in *; [exact Hs|].
    apply andb_prop in Hn as [-> Hn]. simpl. auto.
  - destruct k; discriminate.
  - change (":" +:+ s) with (String ":" s). by apply partition_byte.
Qed.

(** Reading back the lines that [serialize] wrote for [h] gives [h]. *)
Lemma fold_header_lines h : forall acc : dict,
  Forall header_ok h -> NoDup (acc ++ h).*1 ->
  fold_left
    (fun headers cur_header =>
       let '(key, _, value) := partition ":" cur_header in
       dict_set key (PyStr value) headers)
    (map format_header h) acc
  = acc ++ h.
Proof.
  induction h as [|kv h IH]; intros acc Hok Hnd; simpl.
  - by rewrite (right_id_L [] (++)).
  - inversion Hok as [|? ? Hkv Hh]; subst.
    destruct (format_header_ok kv Hkv) as (_ & _ & -> & ->).
    rewrite dict_set_fresh.
    + destruct kv as [k v]. simpl. rewrite IH; [|done|].
      * by rewrite <- (assoc_L (++)).
      * by rewrite <- (assoc_L (++)).
    + rewrite fmap_app in Hnd. apply NoDup_app in Hnd as (_ & Hd & _).
      intros Hin. apply (Hd _ Hin). simpl. left.
Qed.

(** ** Frame construction *)

Lemma Frame_new_Ok command headers body f :
  Frame_new command headers body = Ok f ->
  command ∈ ALL_CMDS /\ f = mkFrame command headers body.
Proof.
  unfold Frame_new. case_bool_decide; simpl; [|discriminate].
  intros [= <-]. auto.
Qed.

Lemma Frame_new_valid command headers body :
  command ∈ ALL_CMDS ->
  Frame_new command headers body = Ok (mkFrame command headers body).
Proof.
  intros H. unfold Frame_new. rewrite bool_decide_eq_true_2; auto.
Qed.

Lemma heartbeat_not_a_command : "HEARTBEAT" ∉ ALL_CMDS.
Proof. apply (bool_decide_unpack _). vm_compute. exact I. Qed.

(** ** The serializer *)

(** The header dictionary as [serialize] leaves it. *)
Lemma serialize_Some self h :
  headers self = Some h ->
  exists h',
    serialize self
      = Ok (command self +:+ NL +:+ join NL (map format_header h')
              +:+ NL +:+ NL +:+ body self +:+ NUL,
            mkFrame (command self) (Some h') (body self)) /\
    (h' = h \/ h' = dict_set "content-length" (PyInt (len (body self))) h).
Proof.
  intros H. unfold serialize. rewrite H.
  destruct (negb _ && negb _); eauto.
Qed.

(** With at least one header the bytes are those of the wire format. *)
Theorem serialize_with_headers self data self' h' :
  serialize self = Ok (data, self') ->
  headers self' = Some h' -> h' <> [] ->
  data = wire_format (command self) h' (body self).
Proof.
  unfold serialize. destruct (headers self) as [h|].
  2: { destruct (negb _); discriminate. }
  intros [= <- <-]. simpl. intros [= <-] Hne.
  unfold wire_format.
  rewrite <- (map_map format_header (fun x => x +:+ NL)).
  rewrite <- join_lines.
  - by rewrite !str_app_assoc.
  - destruct (negb _ && negb _); [|by destruct h].
    intros E. apply map_eq_nil in E. by destruct h as [|[k v] h]; simpl in *;
      [|destruct (String.eqb k "content-length")].
Qed.

(** C6.  A frame without headers is serialized with three newline bytes
    between the command and the body, one more than the wire format has:
    the header lines are joined by newlines and two more newlines are
    appended, which closes the last header line only when there is one. *)
Theorem serialize_without_headers :
  serialize ack_frame = Ok ("ACK" +:+ NL +:+ NL +:+ NL +:+ NUL, ack_frame) /\
  wire_format "ACK" [] "" = "ACK" +:+ NL +:+ NL +:+ NUL.
Proof. split; reflexivity. Qed.

(** ** Header values come out of the parser as strings *)

Lemma dict_set_str_values k s d :
  str_values d -> str_values (dict_set k (PyStr s) d).
Proof.
  unfold str_values. induction d as [|[k' v'] d IH]; simpl; intros H.
  - constructor; [by exists s|constructor].
  - inversion H as [|? ? Hv Hd]; subst.
    destruct (String.eqb k' k); constructor; auto. by exists s.
Qed.

Lemma fold_header_lines_str_values lines d :
  str_values d ->
  str_values
    (fold_left
       (fun headers cur_header =>
          let '(key, _, value) := partition ":" cur_header in
          dict_set key (PyStr value) headers) lines d).
Proof.
  revert d. induction lines as [|l lines IH]; simpl; intros d H; [exact H|].
  apply IH. destruct (partition ":" l) as [[key ?] value].
  by apply dict_set_str_values.
Qed.

Lemma parse_header_lines_str_values header_str :
  str_values (parse_header_lines header_str).
Proof. apply fold_header_lines_str_values. constructor. Qed.

Lemma dict_getitem_str k d :
  str_values d -> dict_mem k d = true ->
  exists s, dict_getitem k d = Ok (PyStr s).
Proof.
  unfold str_values. induction d as [|[k' v'] d IH]; simpl; intros H Hm.
  - discriminate.
  - inversion H as [|? ? [s Hv] Hd]; subst. simpl in Hv.
    destruct (String.eqb k' k); [exists s; by rewrite Hv|auto].
Qed.

(** C3.  Whenever the parsed header block has a [content-length] header,
    the body phase raises [TypeError] at [headers['content-length'] + 1]:
    the value is the byte string taken from the header line, never an
    integer.  No byte of the body is read, and neither the body nor the
    error for a missing NUL byte is produced. *)
Theorem content_length_raises_TypeError command header_str consumed data :
  dict_mem "content-length" (parse_header_lines header_str) = true ->
  parse_body command (parse_header_lines header_str) consumed data = Raise TypeError.
Proof.
  intros Hm. unfold parse_body. rewrite Hm.
  destruct (dict_getitem_str _ _ (parse_header_lines_str_values header_str) Hm)
    as [s ->].
  reflexivity.
Qed.

Lemma content_length_raises_TypeError_witness :
  dict_mem "content-length" (parse_header_lines "content-length:3") = true /\
  parse_body "SEND" (parse_header_lines "content-length:3") 23 ("abc" +:+ NUL)
    = Raise TypeError.
Proof.
  split; [reflexivity|].
  apply (content_length_raises_TypeError "SEND" "content-length:3" 23 ("abc" +:+ NUL)).
  reflexivity.
Defined.

Example parse_length_framed : parse length_framed_bytes = Raise TypeError.
Proof. vm_compute. reflexivity. Qed.

(** ** The parser never yields a heartbeat

    Every frame that the generator yields went through [Frame_new], so its
    command is one of [ALL_CMDS]. *)

Lemma emit_command command headers sofar consumed :
  yields_command (emit command headers sofar consumed).
Proof.
  intros p f n. unfold emit.
  destruct (Frame_new _ _ _) as [fr|] eqn:E; simpl; [|discriminate].
  intros [= _ <- _]. apply Frame_new_Ok in E as [H ->]. exact H.
Qed.

Lemma body_until_nul_command command headers sofar consumed data :
  yields_command (body_until_nul command headers sofar consumed data).
Proof.
  unfold body_until_nul. destruct (contains NUL data); simpl.
  - destruct (partition NUL data) as [[? ?] ?]. apply emit_command.
  - intros p f n [=].
Qed.

Lemma body_by_length_command command headers sofar bytes_to_go consumed data :
  yields_command (body_by_length command headers sofar bytes_to_go consumed data).
Proof.
  unfold body_by_length. destruct (_ <? _).
  - intros p f n [=].
  - destruct (last_char _) as [c|]; simpl; [|intros p f n [=]].
    destruct (Ascii.eqb c "000"); simpl; [apply emit_command|intros p f n [=]].
Qed.

Lemma parse_body_command command headers consumed data :
  yields_command (parse_body command headers consumed data).
Proof.
  unfold parse_body. destruct (dict_mem _ _).
  - destruct (dict_getitem _ _) as [v|]; simpl; [|intros p f n [=]].
    destruct (add_one v); simpl; [apply body_by_length_command|intros p f n [=]].
  - apply body_until_nul_command.
Qed.

Lemma parse_headers_command command sofar consumed data :
  yields_command (parse_headers command sofar consumed data).
Proof.
  unfold parse_headers. destruct (contains _ data); simpl.
  - destruct (partition _ _) as [[? ?] ?]. apply parse_body_command.
  - intros p f n [=].
Qed.

Lemma parse_command_command sofar consumed data :
  yields_command (parse_command sofar consumed data).
Proof.
  unfold parse_command. destruct (contains _ data); simpl.
  - destruct (partition _ _) as [[? ?] ?]. apply parse_headers_command.
  - intros p f n [=].
Qed.

Lemma parse_leading_command chunk :
  yields_command (parse_leading chunk).
Proof.
  unfold parse_leading. destruct (String.eqb _ ""); [intros p f n [=]|].
  destruct (first_char _) as [c|]; simpl; [|intros p f n [=]].
  destruct (Ascii.eqb c "010"); [|apply parse_command_command].
  intros p f n. change (Frame_new "HEARTBEAT" None "") with
    (Raise (A:=Frame) (ValueError_invalid_command "HEARTBEAT")).
  discriminate.
Qed.

Lemma send_command p data : yields_command (send p data).
Proof.
  destruct p; simpl;
    first [ apply parse_leading_command | apply parse_command_command
          | apply parse_headers_command | apply body_by_length_command
          | apply body_until_nul_command | intros ? ? ? [=] ].
Qed.

Theorem send_never_heartbeat p data p' f n :
  send p data = Ok (p', (Some f, n)) -> command f <> "HEARTBEAT".
Proof.
  intros H E. apply send_command in H. rewrite E in H.
  exact (heartbeat_not_a_command H).
Qed.

(** C4.  A lone newline byte makes the parser report one byte consumed and
    no frame; the heartbeat test that follows the leading-newline loop is
    only reached with data that does not start with a newline, and the
    HEARTBEAT frame it would build is rejected by [Frame_new]. *)
Theorem lone_newline_yields_no_frame :
  (p ← next _parse_iter; send p.1 NL) = Ok (Leading, (None, 1)) /\
  Frame_new "HEARTBEAT" None "" = Raise (ValueError_invalid_command "HEARTBEAT").
Proof. split; vm_compute; reflexivity. Qed.

(** ** Frames from the parser carry byte strings *)

Lemma sound_Raise e : sound_resumption (Raise e).
Proof. intros p fr n [=]. Qed.

Lemma sound_incomplete p n : parser_ok p -> sound_resumption (Ok (p, (None, n))).
Proof. intros H p' fr n' [= <- <- <-]. split; [exact H|]. intros f [=]. Qed.

Lemma emit_sound command h sofar consumed :
  str_values h -> sound_resumption (emit command h sofar consumed).
Proof.
  intros Hh p fr n. unfold emit.
  destruct (Frame_new _ _ _) as [f|] eqn:E; simpl; [|discriminate].
  intros [= <- <- <-]. split; [exact I|]. intros f' [= <-].
  apply Frame_new_Ok in E as [_ ->]. by exists h.
Qed.

Lemma body_until_nul_sound command h sofar consumed data :
  str_values h -> sound_resumption (body_until_nul command h sofar consumed data).
Proof.
  intros Hh. unfold body_until_nul. destruct (contains NUL data); simpl.
  - destruct (partition NUL data) as [[? ?] ?]. by apply emit_sound.
  - by apply sound_incomplete.
Qed.

Lemma body_by_length_sound command h sofar bytes_to_go consumed data :
  str_values h ->
  sound_resumption (body_by_length command h sofar bytes_to_go consumed data).
Proof.
  intros Hh. unfold body_by_length. destruct (_ <? _).
  - by apply sound_incomplete.
  - destruct (last_char _) as [c|]; simpl; [|apply sound_Raise].
    destruct (Ascii.eqb c "000"); simpl; [by apply emit_sound|apply sound_Raise].
Qed.

Lemma parse_body_sound command h consumed data :
  str_values h -> sound_resumption (parse_body command h consumed data).
Proof.
  intros Hh. unfold parse_body. destruct (dict_mem _ _).
  - destruct (dict_getitem _ _) as [v|]; simpl; [|apply sound_Raise].
    destruct (add_one v); simpl; [by apply body_by_length_sound|apply sound_Raise].
  - by apply body_until_nul_sound.
Qed.

Lemma parse_headers_sound command sofar consumed data :
  sound_resumption (parse_headers command sofar consumed data).
Proof.
  unfold parse_headers. destruct (contains _ data); simpl.
  - destruct (partition _ _) as [[? ?] ?].
    apply parse_body_sound, parse_header_lines_str_values.
  - by apply sound_incomplete.
Qed.

Lemma parse_command_sound sofar consumed data :
  sound_resumption (parse_command sofar consumed data).
Proof.
  unfold parse_command. destruct (contains _ data); simpl.
  - destruct (partition _ _) as [[? ?] ?]. apply parse_headers_sound.
  - by apply sound_incomplete.
Qed.

Lemma parse_leading_sound chunk : sound_resumption (parse_leading chunk).
Proof.
  unfold parse_leading. destruct (String.eqb _ ""); [by apply sound_incomplete|].
  destruct (first_char _) as [c|]; simpl; [|apply sound_Raise].
  destruct (Ascii.eqb c "010"); [|apply parse_command_sound].
  change (Frame_new "HEARTBEAT" None "") with
    (Raise (A:=Frame) (ValueError_invalid_command "HEARTBEAT")).
  apply sound_Raise.
Qed.

Lemma send_sound p data : parser_ok p -> sound_resumption (send p data).
Proof.
  destruct p; simpl; intros H;
    first [ apply parse_leading_sound | apply parse_command_sound
          | apply parse_headers_sound | by apply body_by_length_sound
          | by apply body_until_nul_sound | apply sound_Raise ].
Qed.

Theorem parse_frame_ok data f : parse data = Ok f -> frame_ok f.
Proof.
  unfold parse. simpl.
  destruct (parse_leading data) as [[p [fr n]]|] eqn:E; simpl; [|discriminate].
  destruct (negb _); [discriminate|]. destruct fr as [f'|]; [|discriminate].
  intros [= <-]. by apply (parse_leading_sound data p (Some f') n E).
Qed.

Lemma socket_loop_frame_ok fuel : forall p fr n sock f sock' h,
  parser_ok p -> (forall f0, fr = Some f0 -> frame_ok f0) ->
  socket_loop fuel p fr n sock = Some (Ok (f, sock', h)) -> frame_ok f.
Proof.
  induction fuel as [|fuel IH]; intros p fr n sock f sock' h Hp Hfr.
  - destruct fr as [f0|]; simpl; [|discriminate]. intros [= <- <- <-]. by apply Hfr.
  - destruct fr as [f0|]; simpl; [intros [= <- <- <-]; by apply Hfr|].
    destruct (send p _) as [[p' [fr' n']]|] eqn:E; [|discriminate].
    destruct (send_sound p _ Hp _ _ _ E) as [Hp' Hfr'].
    destruct (socket_loop fuel p' fr' n' _) as [[[[f1 s1] h1]|]|] eqn:El;
      try discriminate.
    intros [= <- <- <-]. by apply (IH _ _ _ _ _ _ _ Hp' Hfr' El).
Qed.

Theorem parse_from_socket_frame_ok fuel sock f sock' :
  parse_from_socket fuel sock = Some (Ok (f, sock')) -> frame_ok f.
Proof.
  unfold parse_from_socket, parse_from_socket_hist. simpl.
  destruct (parse_leading _) as [[p [fr n]]|] eqn:E; [|discriminate].
  destruct (parse_leading_sound _ _ _ _ E) as [Hp Hfr].
  destruct (socket_loop fuel p fr n _) as [[[[f1 s1] h1]|]|] eqn:El;
    try discriminate.
  intros [= <- <-]. by apply (socket_loop_frame_ok _ _ _ _ _ _ _ _ Hp Hfr El).
Qed.

(** ** Newlines before a frame

    The count of the leading newlines is carried through the phases of the
    parser and only ever added to. *)

Lemma emit_shift command h sofar n k :
  emit command h sofar (n + k) = shift k (emit command h sofar n).
Proof. unfold emit. by destruct (Frame_new _ _ _). Qed.

Lemma body_until_nul_shift command h sofar n k data :
  body_until_nul command h sofar (n + k) data
    = shift k (body_until_nul command h sofar n data).
Proof.
  unfold body_until_nul. destruct (contains NUL data); simpl.
  - destruct (partition NUL data) as [[e s] l].
    rewrite <- emit_shift. f_equal. lia.
  - do 3 f_equal. lia.
Qed.

Lemma parse_body_shift command h n k data :
  str_values h ->
  parse_body command h (n + k) data = shift k (parse_body command h n data).
Proof.
  intros Hh. unfold parse_body. destruct (dict_mem _ _) eqn:Em.
  - destruct (dict_getitem_str _ _ Hh Em) as [s ->]. reflexivity.
  - apply body_until_nul_shift.
Qed.

Lemma parse_headers_shift command sofar n k data :
  parse_headers command sofar (n + k) data
    = shift k (parse_headers command sofar n data).
Proof.
  unfold parse_headers. destruct (contains _ data); simpl.
  - destruct (partition _ _) as [[hs sep] d].
    rewrite <- parse_body_shift by apply parse_header_lines_str_values.
    f_equal. lia.
  - do 3 f_equal. lia.
Qed.

Lemma parse_command_shift sofar n k data :
  parse_command sofar (n + k) data = shift k (parse_command sofar n data).
Proof.
  unfold parse_command. destruct (contains _ data); simpl.
  - destruct (partition _ _) as [[e sep] d].
    rewrite <- parse_headers_shift. f_equal. lia.
  - do 3 f_equal. lia.
Qed.

Lemma lstrip_nl_length s : (String.length (lstrip_nl s) <= String.length s)%nat.
Proof.
  induction s as [|a s IH]; simpl; [lia|].
  destruct (Ascii.eqb a "010"); simpl; lia.
Qed.

(** One more newline in front of a chunk is one more byte consumed. *)
Lemma parse_leading_newline chunk :
  parse_leading (NL +:+ chunk) = shift 1 (parse_leading chunk).
Proof.
  unfold parse_leading.
  change (lstrip_nl (NL +:+ chunk)) with (lstrip_nl chunk).
  pose proof (lstrip_nl_length chunk) as Hle.
  assert (len (NL +:+ chunk) - len (lstrip_nl chunk)
          = len chunk - len (lstrip_nl chunk) + 1) as ->.
  { rewrite len_app. change (len NL) with 1. lia. }
  set (c := len chunk - len (lstrip_nl chunk)).
  assert (0 <= c <= len chunk) as Hc by (unfold c, len; lia).
  assert (slice_from (NL +:+ chunk) (c + 1) = slice_from chunk c) as ->.
  { unfold slice_from, slice_index. rewrite len_app. change (len NL) with 1.
    destruct (c + 1 <? 0) eqn:E1; [lia|]. destruct (c <? 0) eqn:E2; [lia|].
    replace (Z.to_nat (Z.min (1 + len chunk) (Z.max 0 (c + 1))))
      with (S (Z.to_nat (Z.min (len chunk) (Z.max 0 c)))) by lia.
    reflexivity. }
  destruct (String.eqb _ ""); [reflexivity|].
  destruct (first_char _) as [a|]; simpl; [|reflexivity].
  destruct (Ascii.eqb a "010"); [reflexivity|].
  apply parse_command_shift.
Qed.

(** A frame that parses still parses, to the same frame, with a newline
    byte in front of it. *)
Theorem newline_before_frame data f :
  parse data = Ok f -> parse (NL +:+ data) = Ok f.
Proof.
  unfold parse. change (next _parse_iter) with (Ok (Leading, (None : option Frame, 0))).
  cbn [mbind result_bind send]. rewrite parse_leading_newline.
  destruct (parse_leading data) as [[p [fr n]]|]; simpl; [|discriminate].
  assert (len (String "010" data) = len data + 1) as ->
    by (unfold len; simpl String.length; lia).
  destruct (n =? len data) eqn:E; simpl; [|discriminate].
  apply Z.eqb_eq in E. rewrite (proj2 (Z.eqb_eq (n + 1) (len data + 1))) by lia.
  simpl. by destruct fr.
Qed.

(** A newline byte that comes as a chunk of its own leaves the parser
    where it was, waiting for the first byte of a frame. *)
Example newline_chunk_keeps_state :
  send Leading NL = Ok (Leading, (None, 1)).
Proof. reflexivity. Qed.

(** ** Chunked parsing *)

(** C1.  Two ways of cutting the eleven bytes of one valid frame in two for
    which feeding the chunks differs from parsing the whole.  Cut between
    the two newlines that end the header block, neither chunk holds both
    newlines, the header loop tests each new chunk alone, and no frame is
    yielded.  Cut inside the header block, the frame is the same but the
    counts add up to twelve: the bytes of the header block that the first
    count reported are counted again with the rest of the block. *)
Theorem chunked_parse_diverges :
  serialize small_frame = Ok (small_frame_bytes, small_frame) /\
  parse small_frame_bytes = Ok small_frame /\
  len small_frame_bytes = 11 /\
  join "" cut_between_newlines = small_frame_bytes /\
  (p ← next _parse_iter; feed p.1 cut_between_newlines)
    = Ok [(None, 9); (None, 2)] /\
  join "" cut_inside_headers = small_frame_bytes /\
  (p ← next _parse_iter; feed p.1 cut_inside_headers)
    = Ok [(None, 6); (Some small_frame, 6)].
Proof. repeat split; vm_compute; reflexivity. Qed.

(** ** Serialize, then parse *)

(** C2.  Two frames that do not come back from the parser.  Without
    headers, the three newlines of the serialized frame are read as a
    header line that is empty, and the frame comes back with the header
    [""] mapped to [""].  With a body, the serializer adds [content-length]
    and the parser raises [TypeError] on it. *)
Theorem round_trip_fails :
  (r ← serialize ack_frame; parse r.1)
    = Ok (mkFrame "ACK" (Some [("", PyStr "")]) "") /\
  (r ← serialize hello_frame; parse r.1) = Raise TypeError.
Proof. split; vm_compute; reflexivity. Qed.

Corollary round_trips_not :
  ~ round_trips ack_frame /\ ~ round_trips hello_frame.
Proof.
  split; intros (data & f' & Hs & Hp); vm_compute in Hs;
    injection Hs as <- <-; vm_compute in Hp; discriminate.
Qed.

(** ** The round trip of a frame without body *)

Lemma command_shape c :
  c ∈ ALL_CMDS ->
  no_byte "010" c = true /\ exists a t, c = String a t /\ Ascii.eqb a "010" = false.
Proof.
  intros H.
  assert (Forall (fun c => no_byte "010" c = true /\
                           exists a t, c = String a t /\ Ascii.eqb a "010" = false)
            ALL_CMDS) as HF.
  { repeat (constructor; [split; [reflexivity|eexists _, _; split; reflexivity]|]).
    constructor. }
  rewrite Forall_forall in HF. by apply HF.
Qed.

Lemma slice_from_0 s : slice_from s 0 = s.
Proof.
  unfold slice_from, slice_index. simpl.
  rewrite Z.max_id, Z.min_r by apply len_nonneg. reflexivity.
Qed.

Lemma contains_find sep s i : find sep s = Some i -> contains sep s = true.
Proof. unfold contains. by intros ->. Qed.

Lemma len_NL : len NL = 1.
Proof. reflexivity. Qed.

(** What [parse] does with the serialization of a frame without body. *)
Lemma parse_plain command h :
  command ∈ ALL_CMDS -> h <> [] -> NoDup h.*1 -> Forall header_ok h ->
  parse (command +:+ NL +:+ join NL (map format_header h) +:+ NL +:+ NL +:+ "" +:+ NUL)
    = Ok (mkFrame command (Some h) "").
Proof.
  intros Hc Hne Hnd Hok.
  destruct (command_shape _ Hc) as (Hcn & a & t & Ea & Ha).
  set (lines := map format_header h).
  assert (lines <> []) as Hlines by (subst lines; by destruct h).
  assert (Forall (fun l => l <> "" /\ no_byte "010" l = true) lines) as Hl.
  { subst lines. apply Forall_fmap. eapply Forall_impl; [exact Hok|].
    intros kv Hkv. simpl. destruct (format_header_ok kv Hkv) as (? & ? & _). auto. }
  set (rest := join NL lines +:+ NL +:+ NL +:+ "" +:+ NUL).
  set (data := command +:+ NL +:+ rest).
  unfold parse. simpl.
  (* leading newlines: none *)
  unfold parse_leading.
  assert (lstrip_nl data = data) as ->.
  { subst data. rewrite Ea. simpl. by rewrite Ha. }
  rewrite Z.sub_diag, slice_from_0.
  assert (String.eqb data "" = false) as ->.
  { subst data. rewrite Ea. reflexivity. }
  assert (first_char data = Ok a) as -> by (subst data; by rewrite Ea).
  simpl. rewrite Ha.
  (* the command line *)
  unfold parse_command.
  assert (partition NL data = (command, NL, rest)) as Hp.
  { subst data. change (NL +:+ rest) with (String "010" rest).
    by apply partition_byte. }
  assert (contains NL data = true) as ->.
  { subst data. change (NL +:+ rest) with (String "010" rest).
    eapply contains_find, find_byte_app, Hcn. }
  simpl. rewrite Hp. simpl.
  (* the header block *)
  unfold parse_headers.
  assert (find (NL +:+ NL) rest = Some (String.length (join NL lines))) as Hf.
  { subst rest. by apply find_end_of_headers. }
  assert (partition (NL +:+ NL) rest = (join NL lines, NL +:+ NL, NUL)) as Hp2.
  { unfold partition. rewrite Hf. subst rest.
    rewrite take_str_app.
    by rewrite <- (str_app_assoc NL NL), drop_str_app_sep. }
  rewrite (contains_find _ _ _ Hf). simpl.
  change (String "010" NL) with (NL +:+ NL). rewrite Hp2.
  unfold parse_header_lines.
  rewrite split_join;
    [|exact Hlines|eapply Forall_impl; [exact Hl|]; by intros ? [_ ?]].
  subst lines. rewrite (fold_header_lines h []) by done.
  change ([] ++ h) with h.
  (* the body *)
  unfold parse_body.
  rewrite dict_mem_absent.
  2: { intros Hin. apply list_elem_of_fmap in Hin as (kv & Ek & Hin).
       rewrite Forall_forall in Hok. destruct (Hok _ Hin) as (_ & _ & Hcl & _).
       by destruct Hcl. }
  simpl.
  change (body_until_nul command h [] ?c NUL) with (emit command h [""] (c + 0 + 1)).
  unfold emit. change (join "" [""]) with "".
  rewrite (Frame_new_valid _ _ _ Hc). simpl. subst data rest.
  rewrite !len_app, len_NL.
  change (len (String "010" NL)) with 2. change (len "") with 0.
  change (len NUL) with 1.
  rewrite (proj2 (Z.eqb_eq _ _)) by lia. reflexivity.
Qed.

(** For the frames described by [plain_frame], parsing the serialized
    frame gives the frame back. *)
Theorem round_trip_plain f : plain_frame f -> round_trips f.
Proof.
  intros (Hc & Hb & h & Hh & Hne & Hnd & Hok).
  destruct f as [command hs body]. simpl in *. subst.
  eexists _, _. split; [reflexivity|]. simpl.
  by apply parse_plain.
Qed.

Lemma round_trip_plain_witness : round_trips small_frame.
Proof.
  apply round_trip_plain. split; [|split; [reflexivity|]].
  - apply (bool_decide_unpack _). vm_compute. exact I.
  - eexists. split; [reflexivity|]. split; [done|]. split.
    + apply (bool_decide_unpack _). vm_compute. exact I.
    + repeat constructor; try reflexivity; simpl; try done. by eexists.
Defined.

(** ** Parsing from the socket *)

Lemma take_str_prefix n s : exists rest, s = take_str n s +:+ rest.
Proof.
  revert s. induction n as [|n IH]; intros s; simpl.
  - by exists s.
  - destruct s as [|c s]; [by exists ""|].
    destruct (IH s) as [rest E]. exists rest. simpl. by rewrite <- E.
Qed.

(** The loop, entered with no frame yet: all but the last peek were
    followed by a [recv] of the count reported for them, the count
    [bytes_consumed] the loop was entered with included; the last peek was
    followed by none. *)
Lemma socket_loop_history fuel : forall p bytes_consumed sock f sock' h,
  socket_loop fuel p None bytes_consumed sock = Some (Ok (f, sock', h)) ->
  exists incomplete last n,
    h = incomplete ++ [(last, (Some f, n))] /\
    Forall is_incomplete incomplete /\
    sock' = replay sock (bytes_consumed :: map (fun e => e.2.2) incomplete) /\
    last = take_str 4096 (inbox sock').
Proof.
  induction fuel as [|fuel IH]; intros p bc sock f sock' h; simpl; [discriminate|].
  destruct (send p _) as [[p' [frame bc']]|e] eqn:Es; [|discriminate].
  destruct frame as [fr|].
  - destruct fuel; simpl; intros [= <- <- <-];
      exists [], (take_str 4096 (inbox (arrive (recv bc sock).2))), bc';
      repeat split; constructor.
  - destruct (socket_loop fuel p' None bc' _) as [[[[f0 s0] h0]|]|] eqn:El;
      try discriminate.
    intros [= <- <- <-].
    destruct (IH _ _ _ _ _ _ El) as (inc & last & n & -> & Hinc & -> & ->).
    eexists (_ :: inc), _, n. repeat split.
    constructor; [reflexivity|exact Hinc].
Qed.

(** C10.  When [parse_from_socket] returns a frame, the socket is as the
    peeks and the [recv] calls of the incomplete rounds left it: each of
    those rounds removed the count that the parser had reported for it and
    nothing else was removed.  The chunk of the last peek, the one that
    completed the frame, is still at the front of the socket with all its
    bytes, those of the frame included. *)
Theorem parse_from_socket_keeps_last_chunk fuel sock f sock' h :
  parse_from_socket_hist fuel sock = Some (Ok (f, sock', h)) ->
  exists incomplete last n rest,
    h = incomplete ++ [(last, (Some f, n))] /\
    Forall is_incomplete incomplete /\
    sock' = replay (arrive sock) (map (fun e => e.2.2) incomplete) /\
    last = take_str 4096 (inbox sock') /\
    inbox sock' = last +:+ rest.
Proof.
  unfold parse_from_socket_hist. simpl.
  destruct (parse_leading _) as [[p' [frame bc]]|e] eqn:Es; [|discriminate].
  destruct frame as [fr|].
  - destruct fuel; simpl; intros [= <- <- <-];
      destruct (take_str_prefix 4096 (inbox (arrive sock))) as [rest E];
      exists [], (take_str 4096 (inbox (arrive sock))), bc, rest;
      repeat split; try constructor; exact E.
  - destruct (socket_loop fuel p' None bc _) as [[[[f0 s0] h0]|]|] eqn:El;
      try discriminate.
    intros [= <- <- <-].
    destruct (socket_loop_history _ _ _ _ _ _ _ El)
      as (inc & last & n & -> & Hinc & -> & ->).
    destruct (take_str_prefix 4096
                (inbox (replay (arrive sock) (bc :: map (fun e => e.2.2) inc))))
      as [rest E].
    eexists (_ :: inc), _, n, rest. repeat split.
    + constructor; [reflexivity|exact Hinc].
    + exact E.
Qed.

Lemma parse_from_socket_keeps_last_chunk_witness :
  exists incomplete last n rest,
    [("SEND" +:+ NL, (None, 5)); ("a:b" +:+ NL +:+ NL, (None, 5));
     ("xyz" +:+ NUL +:+ "MESSAGE",
      (Some (mkFrame "SEND" (Some [("a", PyStr "b")]) "xyz"), 4))]
      = incomplete ++
        [(last, (Some (mkFrame "SEND" (Some [("a", PyStr "b")]) "xyz"), n))] /\
    Forall is_incomplete incomplete /\
    mkSocket ("xyz" +:+ NUL +:+ "MESSAGE") []
      = replay (arrive two_frames_socket) (map (fun e => e.2.2) incomplete) /\
    last = take_str 4096 ("xyz" +:+ NUL +:+ "MESSAGE") /\
    "xyz" +:+ NUL +:+ "MESSAGE" = last +:+ rest.
Proof.
  apply (parse_from_socket_keeps_last_chunk 10 two_frames_socket).
  vm_compute. reflexivity.
Defined.

(** ** Receipts *)

(** A frame from the parser carries byte strings, and [send] records
    integers: the receipt id of a parsed frame is never found in a set
    that holds integers only. *)
Lemma dict_get_str_values k d :
  str_values d -> dict_get k d = PyNone \/ is_str (dict_get k d).
Proof.
  unfold str_values. induction d as [|[k' v] d IH]; simpl; intros H; [auto|].
  inversion H as [|? ? Hv Hd]; subst.
  destruct (String.eqb k' k); auto.
Qed.

Theorem parsed_receipt_never_matches self cur h :
  command cur = "RECEIPT" -> headers cur = Some h -> str_values h ->
  (forall v, v ∈ no_receipt self -> exists z, v = PyInt z) ->
  recv_dispatch self cur = Ok (self, []).
Proof.
  intros Hc Hh Hs Hints. unfold recv_dispatch. rewrite Hc, Hh. simpl.
  rewrite bool_decide_eq_false_2; [reflexivity|].
  intros Hin. apply Hints in Hin as [z Hz].
  destruct (dict_get_str_values "receipt-id" h Hs) as [E|[s E]];
    rewrite E in Hz; discriminate.
Qed.

(** C7.  After [send] has recorded the integer 0, the RECEIPT frame that
    the parser builds from [receipt-id:0] carries the byte string "0",
    which is not a member of the set: the set still holds 0 afterwards. *)
Theorem receipt_not_removed :
  (self ← after_first_send; Ok (no_receipt self)) = Ok {[PyInt 0]} /\
  parse receipt_bytes
    = Ok (mkFrame "RECEIPT" (Some [("receipt-id", PyStr "0")]) "") /\
  (self ← after_first_send;
   cur ← parse receipt_bytes;
   r ← recv_dispatch self cur;
   Ok (no_receipt r.1)) = Ok {[PyInt 0]}.
Proof. repeat split; vm_compute; reflexivity. Qed.

(** ** Receipts are never matched *)

Lemma Connection_init_int_receipts m r e self :
  Connection_init m r e = Ok self -> int_receipts self.
Proof. intros [= <-] v Hv. simpl in Hv. by apply not_elem_of_empty in Hv. Qed.

Lemma Connection_send_int_receipts self destination body extra self' :
  int_receipts self ->
  Connection_send self destination body extra = Ok self' -> int_receipts self'.
Proof.
  intros H. unfold Connection_send.
  destruct (Frame_new _ _ _) as [f|]; simpl; [|discriminate].
  intros [= <-] v. simpl. rewrite elem_of_union, elem_of_singleton.
  intros [Hv| ->]; [by apply H|by eexists].
Qed.

(** Whatever frame the receiver gets from the socket, the dispatch leaves
    the set of pending receipt ids as it is. *)
Theorem receipt_never_removed fuel sock cur sock' self self' calls :
  int_receipts self ->
  parse_from_socket fuel sock = Some (Ok (cur, sock')) ->
  recv_dispatch self cur = Ok (self', calls) ->
  no_receipt self' = no_receipt self.
Proof.
  intros Hints Hp. apply parse_from_socket_frame_ok in Hp as (h & Hh & Hs).
  unfold recv_dispatch. rewrite Hh.
  destruct (String.eqb (command cur) "MESSAGE"); simpl.
  - destruct (dict_mem "ack" h); simpl;
      (destruct (String.eqb (command cur) "RECEIPT"); simpl;
       [|by intros [= <- <-]]);
      (rewrite bool_decide_eq_false_2; [by intros [= <- <-]|]);
      simpl; intros Hin; apply Hints in Hin as [z Hz];
      destruct (dict_get_str_values "receipt-id" h Hs) as [E|[s E]];
      rewrite E in Hz; discriminate.
  - destruct (String.eqb (command cur) "RECEIPT"); simpl; [|by intros [= <- <-]].
    rewrite bool_decide_eq_false_2; [by intros [= <- <-]|].
    intros Hin; apply Hints in Hin as [z Hz].
    destruct (dict_get_str_values "receipt-id" h Hs) as [E|[s E]];
      rewrite E in Hz; discriminate.
Qed.

(** ** Received messages *)

(** C5.  With a handler registered as [on_message], the dispatch of a
    received MESSAGE frame makes no call: the frame is not handed to the
    handler. *)
Theorem message_not_handed_to_handler :
  on_message listening = Some "handle_message" /\
  command message_frame = "MESSAGE" /\
  run_recv_iter listening (Ok message_frame) = Ok (listening, []) /\
  ~ handed_to_on_message listening message_frame.
Proof.
  repeat split; try reflexivity.
  intros (h & d & self' & calls & _ & _ & Hr & Hin).
  vm_compute in Hr. injection Hr as <- <-. inversion Hin.
Qed.

(** What the dispatch of a MESSAGE frame does instead: it puts an ACK
    frame with no headers on the outbound queue when the frame has an
    [ack] header, and nothing else. *)
Lemma message_dispatch self cur h :
  command cur = "MESSAGE" -> headers cur = Some h ->
  recv_dispatch self cur
    = Ok (if dict_mem "ack" h then put (mkFrame "ACK" (Some []) "") self else self,
          []).
Proof.
  intros Hc Hh. unfold recv_dispatch. rewrite Hc, Hh. simpl.
  destruct (dict_mem "ack" h); reflexivity.
Qed.

(** ** The signal flags *)

Lemma start_flags self self' :
  start self = Ok self' -> sock_ready self' = false /\ sock_broken self' = true.
Proof.
  unfold start. destruct (started self); [discriminate|].
  intros [= <-]. split; reflexivity.
Qed.

(** What one transition does to the flags, step by step. *)
Lemma visited_transition self t :
  exactly_one self = true ->
  exactly_one (run_ops (ops_of t) self) = true /\
  Forall (fun s => both_set s = false) (visited (ops_of t) self).
Proof.
  unfold exactly_one, both_set. destruct self as [? ? ? ? r b ? ? ? ? ? ? ?].
  destruct t, r, b; simpl; intros H; try discriminate; repeat constructor.
Qed.

Lemma run_ops_app ops1 ops2 self :
  run_ops (ops1 ++ ops2) self = run_ops ops2 (run_ops ops1 self).
Proof. unfold run_ops. apply fold_left_app. Qed.

Lemma visited_app ops1 ops2 self :
  visited (ops1 ++ ops2) self
    = visited ops1 self ++ visited ops2 (run_ops ops1 self).
Proof.
  revert self. induction ops1 as [|op ops1 IH]; simpl; intros self; [done|].
  by rewrite IH.
Qed.

Lemma run_exclusive self ts :
  exactly_one self = true ->
  exactly_one (run_ops (ops_of_run ts) self) = true /\
  Forall (fun s => both_set s = false) (visited (ops_of_run ts) self).
Proof.
  revert self. induction ts as [|t ts IH]; intros self H.
  - split; [exact H|constructor].
  - unfold ops_of_run. simpl. fold (ops_of_run ts).
    rewrite run_ops_app, visited_app.
    destruct (visited_transition self t H) as [H1 H2].
    destruct (IH _ H1) as [H3 H4].
    split; [exact H3|]. apply Forall_app. auto.
Qed.

(** C8, as stated, fails: the first transition of a started engine, the
    reconnector's [sock_broken.clear()] followed by [sock_ready.set()],
    passes through a state in which both flags are clear. *)
Lemma flags_both_clear_inside_transition :
  Connection_init None None None = Ok just_started /\
  both_clear (apply_op just_started broken_clear) = true /\
  ~ exclusive_at_every_step just_started [Reconnected].
Proof.
  split; [reflexivity|]. split; [reflexivity|].
  intros H. inversion H as [|? ? H1 _]. discriminate H1.
Qed.

(** What one transition does in its middle: it leaves the flags alone at
    both steps, or it passes through a state with both flags clear. *)
Lemma halfway_transition self t :
  exactly_one self = true ->
  (run_ops (ops_of t) self = self /\ halfway t self = self) \/
  (run_ops (ops_of t) self <> self /\ both_clear (halfway t self) = true).
Proof.
  unfold exactly_one, both_clear, halfway.
  destruct self as [? ? ? ? r b ? ? ? ? ? ? ?].
  destruct t, r, b; simpl; intros H; try discriminate;
    first [left; split; reflexivity | right; split; [discriminate|reflexivity]].
Qed.

(** C8, amended.  In a run of the engine made of whole transitions, each
    with its two flag operations next to each other: from [start] on,
    exactly one of the two flags holds before and after every transition,
    and at no single step, inside a transition or not, are both flags set.
    Whichever transition comes next, the reconnector's or a worker's
    handler of [socket.error], it either leaves the flags as they are at
    both of its steps or has both flags clear at its intermediate step. *)
Theorem flags_exclusive_between_transitions self self' ts :
  start self = Ok self' ->
  exactly_one (run_ops (ops_of_run ts) self') = true /\
  Forall (fun s => both_set s = false) (visited (ops_of_run ts) self') /\
  forall t,
    (run_ops (ops_of t) (run_ops (ops_of_run ts) self')
       = run_ops (ops_of_run ts) self' /\
     halfway t (run_ops (ops_of_run ts) self') = run_ops (ops_of_run ts) self') \/
    (run_ops (ops_of t) (run_ops (ops_of_run ts) self')
       <> run_ops (ops_of_run ts) self' /\
     both_clear (halfway t (run_ops (ops_of_run ts) self')) = true).
Proof.
  intros H.
  assert (H0 : exactly_one self' = true).
  { destruct (start_flags _ _ H) as [Hr Hb]. unfold exactly_one. by rewrite Hr, Hb. }
  destruct (run_exclusive self' ts H0) as [H1 H2].
  split; [exact H1|]. split; [exact H2|].
  intros t. by apply halfway_transition.
Qed.

Lemma flags_exclusive_between_transitions_witness :
  exactly_one
    (run_ops (ops_of_run [Reconnected; SocketError; SocketError; Reconnected])
       just_started) = true /\
  Forall (fun s => both_set s = false)
    (visited (ops_of_run [Reconnected; SocketError; SocketError; Reconnected])
       just_started) /\
  both_clear
    (halfway SocketError
       (run_ops (ops_of_run [Reconnected; SocketError; SocketError; Reconnected])
          just_started)) = true.
Proof.
  destruct (flags_exclusive_between_transitions
              (mkConnection None None None [] false false false false
                 PyNone PyNone 0 0 ∅)
              just_started
              [Reconnected; SocketError; SocketError; Reconnected] eq_refl)
    as (H1 & H2 & H3).
  split; [exact H1|]. split; [exact H2|].
  destruct (H3 SocketError) as [[_ E]|[_ E]]; [discriminate E|exact E].
Defined.

(** ** The sender *)

Lemma dict_mem_set k v d : dict_mem k (dict_set k v d) = true.
Proof.
  induction d as [|[k' v'] d IH]; simpl.
  - by rewrite String.eqb_refl.
  - destruct (String.eqb k' k) eqn:E; simpl; by rewrite E.
Qed.

(** Serializing a frame again gives the same bytes and changes nothing. *)
Lemma serialize_again self data self' :
  serialize self = Ok (data, self') -> serialize self' = Ok (data, self').
Proof.
  unfold serialize. destruct (headers self) as [h|].
  2: { destruct (negb _); discriminate. }
  intros [= <- <-]. simpl.
  destruct (negb (String.eqb (body self) "")) eqn:Eb; simpl; [|reflexivity].
  destruct (dict_mem "content-length" h) eqn:Em; simpl.
  - by rewrite Em.
  - by rewrite dict_mem_set.
Qed.

Lemma serialize_same_frame self data self' :
  serialize self = Ok (data, self') ->
  command self' = command self /\ body self' = body self.
Proof.
  unfold serialize. destruct (headers self) as [h|].
  2: { destruct (negb _); discriminate. }
  intros [= <- <-]. split; reflexivity.
Qed.

(** ** Where a separator is found *)

Lemma prefix_split sep : forall s,
  String.prefix sep s = true -> s = sep +:+ drop_str (String.length sep) s.
Proof.
  induction sep as [|c sep IH]; intros s H; [by destruct s|].
  destruct s as [|a s]; [discriminate|].
  rewrite prefix_cons in H. apply andb_prop in H as [Hc Hs].
  apply Ascii.eqb_eq in Hc as ->. simpl. f_equal. by apply IH.
Qed.

Lemma prefix_length sep : forall s,
  String.prefix sep s = true -> (String.length sep <= String.length s)%nat.
Proof.
  induction sep as [|c sep IH]; intros s H; simpl; [lia|].
  destruct s as [|a s]; [discriminate|].
  rewrite prefix_cons in H. apply andb_prop in H as [_ Hs].
  apply IH in Hs. simpl. lia.
Qed.

Lemma prefix_app sep : forall s t,
  String.prefix sep s = true -> String.prefix sep (s +:+ t) = true.
Proof.
  induction sep as [|c sep IH]; intros s t H; [apply prefix_nil|].
  destruct s as [|a s]; [discriminate|].
  rewrite prefix_cons in H. apply andb_prop in H as [Hc Hs].
  simpl String.append. rewrite prefix_cons, Hc. simpl. by apply IH.
Qed.

Lemma prefix_app_false sep : forall s t,
  String.prefix sep s = false -> (String.length sep <= String.length s)%nat ->
  String.prefix sep (s +:+ t) = false.
Proof.
  induction sep as [|c sep IH]; intros s t H Hl.
  - by rewrite prefix_nil in H.
  - destruct s as [|a s]; [simpl in Hl; lia|].
    rewrite prefix_cons in H. simpl String.append. rewrite prefix_cons.
    destruct (Ascii.eqb c a); [|reflexivity]. simpl in *.
    apply IH; [exact H|lia].
Qed.

(** The index that [find] returns splits the string around the separator. *)
Lemma find_split sep : forall s i,
  find sep s = Some i ->
  s = take_str i s +:+ sep +:+ drop_str (i + String.length sep) s /\
  (i + String.length sep <= String.length s)%nat.
Proof.
  induction s as [|a s IH]; intros i.
  - cbn [find]. destruct (String.prefix sep "") eqn:E; [|discriminate].
    intros [= <-]. split; [by apply prefix_split|by apply prefix_length].
  - cbn [find]. destruct (String.prefix sep (String a s)) eqn:E.
    + intros [= <-]. split; [by apply prefix_split|by apply prefix_length].
    + destruct (find sep s) as [j|] eqn:Ef; [|discriminate].
      intros [= <-]. destruct (IH j eq_refl) as [Hs Hl].
      split; [|simpl; lia]. simpl. f_equal. exact Hs.
Qed.

Lemma take_str_length i : forall s,
  (i <= String.length s)%nat -> String.length (take_str i s) = i.
Proof.
  induction i as [|i IH]; intros s H; [reflexivity|].
  destruct s as [|a s]; simpl in *; [lia|]. rewrite IH; lia.
Qed.

Lemma take_str_app_le i : forall s t,
  (i <= String.length s)%nat -> take_str i (s +:+ t) = take_str i s.
Proof.
  induction i as [|i IH]; intros s t H; [reflexivity|].
  destruct s as [|a s]; simpl in *; [lia|]. rewrite IH; [reflexivity|lia].
Qed.

Lemma drop_str_app_le i : forall s t,
  (i <= String.length s)%nat -> drop_str i (s +:+ t) = drop_str i s +:+ t.
Proof.
  induction i as [|i IH]; intros s t H; [reflexivity|].
  destruct s as [|a s]; simpl in *; [lia|]. apply IH. lia.
Qed.

(** Bytes added at the end do not move the first occurrence. *)
Lemma find_app sep : forall s t i,
  find sep s = Some i -> find sep (s +:+ t) = Some i.
Proof.
  induction s as [|a s IH]; intros t i.
  - cbn [find]. destruct (String.prefix sep "") eqn:E; [|discriminate].
    intros [= <-]. destruct sep; [|discriminate].
    destruct t; reflexivity.
  - cbn [find]. destruct (String.prefix sep (String a s)) eqn:E.
    + intros [= <-]. change (String a s +:+ t) with (String a (s +:+ t)).
      cbn [find]. change (String a (s +:+ t)) with (String a s +:+ t).
      by rewrite (prefix_app _ _ t E).
    + destruct (find sep s) as [j|] eqn:Ef; [|discriminate].
      intros [= <-]. change (String a s +:+ t) with (String a (s +:+ t)).
      cbn [find]. change (String a (s +:+ t)) with (String a s +:+ t).
      rewrite prefix_app_false; [by rewrite (IH t j eq_refl)|exact E|].
      destruct (find_split sep s j Ef) as [_ Hl]. simpl. lia.
Qed.

(** What [partition] returns when the separator occurs. *)
Lemma partition_found sep s :
  contains sep s = true ->
  exists a r,
    partition sep s = (a, sep, r) /\ s = a +:+ sep +:+ r /\
    len a + len sep + len r = len s /\
    forall t, partition sep (s +:+ t) = (a, sep, r +:+ t).
Proof.
  unfold contains, partition. destruct (find sep s) as [i|] eqn:E; [|discriminate].
  intros _. destruct (find_split sep s i E) as [Hs Hl].
  exists (take_str i s), (drop_str (i + String.length sep) s).
  split; [reflexivity|]. split; [exact Hs|]. split.
  - apply (f_equal len) in Hs. rewrite !len_app in Hs. lia.
  - intros t. rewrite (find_app sep s t i E).
    rewrite take_str_app_le by lia. by rewrite drop_str_app_le by lia.
Qed.

Lemma contains_app sep s t : contains sep s = true -> contains sep (s +:+ t) = true.
Proof.
  unfold contains. destruct (find sep s) as [i|] eqn:E; [|discriminate].
  by rewrite (find_app sep s t i E).
Qed.

Lemma join_empty_snoc l x : join "" (l ++ [x]) = join "" l +:+ x.
Proof.
  induction l as [|a l IH]; [reflexivity|].
  destruct l as [|b l].
  - simpl. reflexivity.
  - change (join "" ((a :: b :: l) ++ [x])) with (a +:+ "" +:+ join "" ((b :: l) ++ [x])).
    rewrite IH. change (join "" (a :: b :: l)) with (a +:+ "" +:+ join "" (b :: l)).
    simpl. by rewrite str_app_assoc.
Qed.

(** ** The count of consumed bytes *)

Lemma accounts_Raise c data e : accounts c data (Raise e).
Proof. intros p fr n [=]. Qed.

Lemma emit_accounts command h sofar c data n :
  c <= n <= c + len data -> accounts c data (emit command h sofar n).
Proof.
  intros Hn p fr n'. unfold emit.
  destruct (Frame_new _ _ _); simpl; [|discriminate].
  intros [= <- <- <-]. split; [exact Hn|discriminate].
Qed.

Lemma body_until_nul_accounts command h sofar c data :
  accounts c data (body_until_nul command h sofar c data).
Proof.
  unfold body_until_nul. destruct (contains NUL data) eqn:E; simpl.
  - destruct (partition_found _ _ E) as (a & r & -> & _ & Hl & _).
    apply emit_accounts. pose proof (len_nonneg a). pose proof (len_nonneg r).
    pose proof (len_nonneg NUL). lia.
  - intros p fr n [= <- <- <-]. pose proof (len_nonneg data). split; [lia|done].
Qed.

Lemma accounts_shift c c' data data' r :
  c <= c' -> c' + len data' = c + len data ->
  accounts c' data' r -> accounts c data r.
Proof.
  intros H1 H2 H p fr n E. destruct (H p fr n E) as [Hn Hnone].
  split; [lia|]. intros Hfr. rewrite (Hnone Hfr). lia.
Qed.

Lemma parse_body_accounts command h c data :
  str_values h -> accounts c data (parse_body command h c data).
Proof.
  intros Hh. unfold parse_body. destruct (dict_mem _ _) eqn:Em.
  - destruct (dict_getitem_str _ _ Hh Em) as [s ->]. apply accounts_Raise.
  - apply body_until_nul_accounts.
Qed.

Lemma parse_headers_accounts command c data :
  accounts c data (parse_headers command [] c data).
Proof.
  unfold parse_headers. destruct (contains _ data) eqn:E; simpl.
  - change (String "010" NL) with (NL +:+ NL).
    destruct (partition_found _ _ E) as (a & r & -> & _ & Hl & _).
    pose proof (len_nonneg a). pose proof (len_nonneg (NL +:+ NL)).
    eapply accounts_shift; [| |apply parse_body_accounts, parse_header_lines_str_values];
      lia.
  - intros p fr n [= <- <- <-]. pose proof (len_nonneg data). split; [lia|done].
Qed.

Lemma parse_command_accounts sofar c data :
  accounts c data (parse_command sofar c data).
Proof.
  unfold parse_command. destruct (contains _ data) eqn:E; simpl.
  - destruct (partition_found _ _ E) as (a & r & -> & _ & Hl & _).
    pose proof (len_nonneg a). pose proof (len_nonneg NL).
    eapply accounts_shift; [| |apply parse_headers_accounts]; lia.
  - intros p fr n [= <- <- <-]. pose proof (len_nonneg data). split; [lia|done].
Qed.

(** The slice that the leading-newline loop takes is the stripped chunk. *)
Lemma slice_from_lstrip chunk :
  slice_from chunk (len chunk - len (lstrip_nl chunk)) = lstrip_nl chunk.
Proof.
  induction chunk as [|a s IH]; [reflexivity|].
  pose proof (lstrip_nl_length s) as Hle.
  simpl lstrip_nl. destruct (Ascii.eqb a "010") eqn:Ea.
  - rewrite <- IH at 2. unfold slice_from, slice_index.
    assert (len (String a s) = len s + 1) as -> by (unfold len; simpl String.length; lia).
    set (c := len s - len (lstrip_nl s)).
    assert (0 <= c <= len s) as Hc by (unfold c, len; lia).
    replace (len s + 1 - len (lstrip_nl s)) with (c + 1) by (unfold c; lia).
    destruct (c + 1 <? 0) eqn:E1; [lia|]. destruct (c <? 0) eqn:E2; [lia|].
    replace (Z.to_nat (Z.min (len s + 1) (Z.max 0 (c + 1))))
      with (S (Z.to_nat (Z.min (len s) (Z.max 0 c)))) by lia.
    reflexivity.
  - rewrite Z.sub_diag. apply slice_from_0.
Qed.

Lemma parse_leading_accounts chunk : accounts 0 chunk (parse_leading chunk).
Proof.
  unfold parse_leading. rewrite slice_from_lstrip.
  pose proof (lstrip_nl_length chunk) as Hle.
  assert (0 <= len chunk - len (lstrip_nl chunk)) as Hc by (unfold len; lia).
  destruct (String.eqb _ "") eqn:E.
  - apply String.eqb_eq in E. rewrite E. change (len "") with 0.
    intros p fr n [= <- <- <-]. pose proof (len_nonneg chunk). split; [lia|]. intros _; lia.
  - destruct (first_char _) as [a|]; simpl; [|apply accounts_Raise].
    destruct (Ascii.eqb a "010").
    + change (Frame_new "HEARTBEAT" None "") with
        (Raise (A:=Frame) (ValueError_invalid_command "HEARTBEAT")).
      apply accounts_Raise.
    + eapply accounts_shift; [| |apply parse_command_accounts]; lia.
Qed.

Lemma send_accounts p data :
  counts_exactly p -> accounts 0 data (send p data).
Proof.
  destruct p; simpl; try done; intros _.
  - apply parse_leading_accounts.
  - apply parse_command_accounts.
  - apply body_until_nul_accounts.
Qed.

(** From the start of a frame, inside the command line and inside a
    NUL-terminated body, a chunk that does not complete the frame is
    reported consumed to its last byte, and a chunk that completes it is
    reported consumed up to some byte of the chunk. *)
Theorem incomplete_chunk_is_consumed p data p' fr n :
  counts_exactly p ->
  send p data = Ok (p', (fr, n)) ->
  0 <= n <= len data /\ (fr = None -> n = len data).
Proof.
  intros Hp E. destruct (send_accounts p data Hp _ _ _ E) as [H1 H2].
  split; [lia|]. intros Hfr. rewrite (H2 Hfr). lia.
Qed.

Lemma incomplete_chunk_is_consumed_witness :
  0 <= 6 <= len ("SEND" +:+ NL +:+ "a") /\
  (None = (None : option Frame) -> 6 = len ("SEND" +:+ NL +:+ "a")).
Proof.
  apply (incomplete_chunk_is_consumed Leading ("SEND" +:+ NL +:+ "a")
           (InHeaders "SEND" ["a"]) None 6); [exact I|reflexivity].
Defined.

Lemma parse_incomplete_buffer_aux data p n :
  send Leading data = Ok (p, (None, n)) ->
  parse data = Raise (ValueError_incomplete (len data)).
Proof.
  intros E. destruct (send_accounts Leading data I _ _ _ E) as [_ H].
  specialize (H eq_refl). unfold parse. simpl in *. rewrite E. simpl.
  rewrite H, Z.add_0_l, Z.eqb_refl. reflexivity.
Qed.

(** [Frame.parse] on a buffer that ends before the frame does raises the
    error for an incomplete frame, with the length of the buffer as count,
    and not the error for excess data. *)
Theorem parse_incomplete_buffer data p n :
  send Leading data = Ok (p, (None, n)) ->
  parse data = Raise (ValueError_incomplete (len data)).
Proof. apply parse_incomplete_buffer_aux. Qed.

Lemma parse_incomplete_buffer_witness :
  parse ("SEND" +:+ NL +:+ "a:b" +:+ NL +:+ NL +:+ "hello")
    = Raise (ValueError_incomplete 15).
Proof.
  apply (parse_incomplete_buffer
           ("SEND" +:+ NL +:+ "a:b" +:+ NL +:+ NL +:+ "hello")
           (InBodyNul "SEND" [("a", PyStr "b")] ["hello"]) 15).
  reflexivity.
Defined.

(** ** Bytes after a complete frame *)

Lemma contains_prepend sep d : forall s,
  contains sep d = true -> contains sep (s +:+ d) = true.
Proof.
  unfold contains. induction s as [|a s IH]; intros H; [exact H|].
  change (String a s +:+ d) with (String a (s +:+ d)). cbn [find].
  destruct (String.prefix sep _); [reflexivity|].
  specialize (IH H). by destruct (find sep (s +:+ d)).
Qed.

Lemma body_until_nul_app command h sofar c data p f n t :
  body_until_nul command h sofar c data = Ok (p, (Some f, n)) ->
  body_until_nul command h sofar c (data +:+ t) = Ok (p, (Some f, n)).
Proof.
  unfold body_until_nul. destruct (contains NUL data) eqn:E; simpl; [|discriminate].
  rewrite (contains_app _ _ t E). simpl.
  destruct (partition_found _ _ E) as (a & r & -> & _ & _ & ->). done.
Qed.

Lemma parse_body_app command h c data p f n t :
  str_values h ->
  parse_body command h c data = Ok (p, (Some f, n)) ->
  parse_body command h c (data +:+ t) = Ok (p, (Some f, n)).
Proof.
  intros Hh. unfold parse_body. destruct (dict_mem _ _) eqn:Em.
  - destruct (dict_getitem_str _ _ Hh Em) as [s ->]. discriminate.
  - apply body_until_nul_app.
Qed.

Lemma parse_headers_app command sofar c data p f n t :
  parse_headers command sofar c data = Ok (p, (Some f, n)) ->
  parse_headers command sofar c (data +:+ t) = Ok (p, (Some f, n)).
Proof.
  unfold parse_headers. destruct (contains _ data) eqn:E; simpl; [|discriminate].
  change (String "010" NL) with (NL +:+ NL).
  rewrite (contains_app _ _ t E). simpl.
  change (String "010" NL) with (NL +:+ NL).
  rewrite !join_empty_snoc, <- str_app_assoc.
  pose proof (contains_prepend _ _ (join "" sofar) E) as EJ.
  destruct (partition_found _ _ EJ) as (a & r & -> & _ & _ & ->).
  apply parse_body_app, parse_header_lines_str_values.
Qed.

Lemma parse_command_app sofar c data p f n t :
  parse_command sofar c data = Ok (p, (Some f, n)) ->
  parse_command sofar c (data +:+ t) = Ok (p, (Some f, n)).
Proof.
  unfold parse_command. destruct (contains _ data) eqn:E; simpl; [|discriminate].
  rewrite (contains_app _ _ t E). simpl.
  destruct (partition_found _ _ E) as (a & r & -> & _ & _ & ->).
  apply parse_headers_app.
Qed.

Lemma lstrip_nl_app s t :
  lstrip_nl s <> "" -> lstrip_nl (s +:+ t) = lstrip_nl s +:+ t.
Proof.
  induction s as [|a s IH]; intros H; [done|].
  simpl in *. destruct (Ascii.eqb a "010"); [by apply IH|reflexivity].
Qed.

Lemma parse_leading_app chunk p f n t :
  parse_leading chunk = Ok (p, (Some f, n)) ->
  parse_leading (chunk +:+ t) = Ok (p, (Some f, n)).
Proof.
  unfold parse_leading. rewrite !slice_from_lstrip.
  destruct (String.eqb (lstrip_nl chunk) "") eqn:E; [discriminate|].
  apply String.eqb_neq in E. rewrite (lstrip_nl_app _ t E).
  assert (len (chunk +:+ t) - len (lstrip_nl chunk +:+ t)
          = len chunk - len (lstrip_nl chunk)) as -> by (rewrite !len_app; lia).
  destruct (lstrip_nl chunk) as [|a s] eqn:El; [done|].
  simpl. destruct (Ascii.eqb a "010"); [discriminate|].
  apply (parse_command_app [] _ (String a s)).
Qed.

Lemma slice_from_app s t : slice_from (s +:+ t) (len s) = t.
Proof.
  unfold slice_from, slice_index. rewrite len_app.
  pose proof (len_nonneg s). pose proof (len_nonneg t).
  destruct (len s <? 0) eqn:E; [lia|].
  replace (Z.to_nat (Z.min (len s + len t) (Z.max 0 (len s))))
    with (String.length s) by (unfold len in *; lia).
  apply drop_str_app.
Qed.

(** [Frame.parse] accepts a buffer only if the frame ends where the buffer
    ends: the buffer of a frame that parses, followed by any further byte,
    raises the error for excess data, whose message shows the [repr] of
    the bytes after the frame, cut after 100 characters. *)
Theorem parse_rejects_trailing_data data f extra :
  parse data = Ok f -> extra <> "" ->
  parse (data +:+ extra)
    = Raise (ValueError_excess_data (take_str 100 (repr extra))).
Proof.
  unfold parse. simpl.
  destruct (parse_leading data) as [[p [fr n]]|] eqn:E; simpl; [|discriminate].
  destruct (n =? len data) eqn:En; simpl; [|discriminate].
  destruct fr as [f'|]; [|discriminate]. intros [= <-] Hx.
  rewrite (parse_leading_app _ _ _ _ extra E). simpl.
  apply Z.eqb_eq in En. subst n. rewrite len_app.
  assert (0 < len extra) by (destruct extra; [done|unfold len; simpl; lia]).
  rewrite (proj2 (Z.eqb_neq _ _)) by lia. simpl.
  by rewrite slice_from_app.
Qed.

Lemma parse_rejects_trailing_data_witness :
  parse (small_frame_bytes +:+ "MESSAGE")
    = Raise (ValueError_excess_data "'MESSAGE'").
Proof.
  apply (parse_rejects_trailing_data small_frame_bytes small_frame "MESSAGE");
    [reflexivity|discriminate].
Defined.

Lemma take_str_all n : forall s, (String.length s <= n)%nat -> take_str n s = s.
Proof.
  induction n as [|n IH]; intros [|a s] H; simpl in *; try reflexivity; try lia.
  rewrite IH; [reflexivity|lia].
Qed.

(** When the socket holds a whole frame, and maybe the first bytes of what
    follows it, within one peek, [parse_from_socket] returns the frame that
    [parse] returns for the bytes of the frame alone, and takes nothing
    from the socket. *)
Theorem parse_from_socket_whole_frame fuel data f extra :
  parse data = Ok f ->
  (String.length (data +:+ extra) <= 4096)%nat ->
  parse_from_socket fuel (mkSocket (data +:+ extra) [])
    = Some (Ok (f, mkSocket (data +:+ extra) [])).
Proof.
  unfold parse. simpl.
  destruct (parse_leading data) as [[p [fr n]]|] eqn:E; simpl; [|discriminate].
  destruct (negb _); [discriminate|].
  destruct fr as [f'|]; [|discriminate]. intros [= <-] Hl.
  unfold parse_from_socket, parse_from_socket_hist, recv_peek, arrive.
  cbn [next _parse_iter wire inbox].
  rewrite (take_str_all _ _ Hl). cbn [send].
  rewrite (parse_leading_app _ _ _ _ extra E).
  by destruct fuel.
Qed.

Lemma parse_from_socket_whole_frame_witness :
  parse_from_socket 0 (mkSocket (small_frame_bytes +:+ "MESSAGE") [])
    = Some (Ok (small_frame, mkSocket (small_frame_bytes +:+ "MESSAGE") [])).
Proof.
  apply (parse_from_socket_whole_frame 0 small_frame_bytes small_frame "MESSAGE");
    [reflexivity|vm_compute; lia].
Defined.

(** ** One frame per parser *)

Lemma emit_ends command h sofar c : ends_parser (emit command h sofar c).
Proof.
  intros p f n. unfold emit. destruct (Frame_new _ _ _); simpl; [|discriminate].
  by intros [= <- _ _].
Qed.

Lemma body_until_nul_ends command h sofar c data :
  ends_parser (body_until_nul command h sofar c data).
Proof.
  unfold body_until_nul. destruct (contains NUL data); simpl.
  - destruct (partition NUL data) as [[? ?] ?]. apply emit_ends.
  - intros p f n [=].
Qed.

Lemma body_by_length_ends command h sofar b c data :
  ends_parser (body_by_length command h sofar b c data).
Proof.
  unfold body_by_length. destruct (_ <? _); [intros p f n [=]|].
  destruct (last_char _) as [a|]; simpl; [|intros p f n [=]].
  destruct (Ascii.eqb a "000"); simpl; [apply emit_ends|intros p f n [=]].
Qed.

Lemma parse_body_ends command h c data : ends_parser (parse_body command h c data).
Proof.
  unfold parse_body. destruct (dict_mem _ _); [|apply body_until_nul_ends].
  destruct (dict_getitem _ _) as [v|]; simpl; [|intros p f n [=]].
  destruct (add_one v); simpl; [apply body_by_length_ends|intros p f n [=]].
Qed.

Lemma parse_headers_ends command sofar c data :
  ends_parser (parse_headers command sofar c data).
Proof.
  unfold parse_headers. destruct (contains _ data); simpl; [|intros p f n [=]].
  destruct (partition _ _) as [[? ?] ?]. apply parse_body_ends.
Qed.

Lemma parse_command_ends sofar c data : ends_parser (parse_command sofar c data).
Proof.
  unfold parse_command. destruct (contains _ data); simpl; [|intros p f n [=]].
  destruct (partition _ _) as [[? ?] ?]. apply parse_headers_ends.
Qed.

Lemma parse_leading_ends chunk : ends_parser (parse_leading chunk).
Proof.
  unfold parse_leading. destruct (String.eqb _ ""); [intros p f n [=]|].
  destruct (first_char _) as [a|]; simpl; [|intros p f n [=]].
  destruct (Ascii.eqb a "010"); [|apply parse_command_ends].
  change (Frame_new "HEARTBEAT" None "") with
    (Raise (A:=Frame) (ValueError_invalid_command "HEARTBEAT")).
  intros p f n [=].
Qed.

(** A parser yields at most one frame: after the resumption that yields a
    frame, every further [send] raises [StopIteration]. *)
Theorem parser_yields_one_frame p data p' f n more :
  send p data = Ok (p', (Some f, n)) -> send p' more = Raise StopIteration.
Proof.
  intros E. assert (p' = Yielded) as ->; [|reflexivity].
  revert E. destruct p; simpl;
    first [ apply parse_leading_ends | apply parse_command_ends
          | apply parse_headers_ends | apply body_by_length_ends
          | apply body_until_nul_ends | discriminate ].
Qed.

Lemma parser_yields_one_frame_witness :
  send Yielded "SEND" = Raise StopIteration.
Proof.
  apply (parser_yields_one_frame Leading small_frame_bytes Yielded small_frame 11).
  reflexivity.
Defined.

(** ** Frames on the wire with a NUL-terminated body *)

Lemma join_lines_wire command (h : dict) body :
  h <> [] ->
  wire_format command h body
    = command +:+ NL +:+ join NL (map format_header h) +:+ NL +:+ NL +:+ body +:+ NUL.
Proof.
  intros Hne. unfold wire_format.
  rewrite <- (map_map format_header (fun x => x +:+ NL)).
  rewrite <- join_lines by (by destruct h).
  by rewrite !str_app_assoc.
Qed.

(** What [parse] makes of the wire format of a command line, one header or
    more and a body without NUL byte: the frame that [Frame_new] builds of
    the three, or the error that [Frame_new] raises. *)
Lemma parse_wire command (h : dict) body :
  command_line command -> h <> [] -> NoDup h.*1 -> Forall header_ok h ->
  no_byte "000" body = true ->
  parse (wire_format command h body) = Frame_new command (Some h) body.
Proof.
  intros [Hc0 Hcn] Hne Hnd Hok Hbody. rewrite (join_lines_wire _ _ _ Hne).
  destruct command as [|a t] eqn:Ea; [done|]. rewrite <- Ea in *.
  assert (Ascii.eqb a "010" = false) as Ha.
  { rewrite Ea in Hcn. simpl in Hcn. apply andb_prop in Hcn as [Ha _].
    by apply negb_true_iff. }
  set (lines := map format_header h).
  assert (lines <> []) as Hlines by (subst lines; by destruct h).
  assert (Forall (fun l => l <> "" /\ no_byte "010" l = true) lines) as Hl.
  { subst lines. apply Forall_fmap. eapply Forall_impl; [exact Hok|].
    intros kv Hkv. simpl. destruct (format_header_ok kv Hkv) as (? & ? & _). auto. }
  set (rest := join NL lines +:+ NL +:+ NL +:+ body +:+ NUL).
  set (data := command +:+ NL +:+ rest).
  unfold parse. simpl. unfold parse_leading.
  assert (lstrip_nl data = data) as ->.
  { subst data. rewrite Ea. simpl. by rewrite Ha. }
  rewrite Z.sub_diag, slice_from_0.
  assert (String.eqb data "" = false) as ->.
  { subst data. rewrite Ea. reflexivity. }
  assert (first_char data = Ok a) as -> by (subst data; by rewrite Ea).
  simpl. rewrite Ha.
  unfold parse_command.
  assert (partition NL data = (command, NL, rest)) as Hp.
  { subst data. change (NL +:+ rest) with (String "010" rest).
    by apply partition_byte. }
  assert (contains NL data = true) as ->.
  { subst data. change (NL +:+ rest) with (String "010" rest).
    eapply contains_find, find_byte_app, Hcn. }
  simpl. rewrite Hp. simpl.
  unfold parse_headers.
  assert (find (NL +:+ NL) rest = Some (String.length (join NL lines))) as Hf.
  { subst rest. by apply find_end_of_headers. }
  assert (partition (NL +:+ NL) rest = (join NL lines, NL +:+ NL, body +:+ NUL)) as Hp2.
  { unfold partition. rewrite Hf. subst rest.
    rewrite take_str_app.
    by rewrite <- (str_app_assoc NL NL), drop_str_app_sep. }
  rewrite (contains_find _ _ _ Hf). simpl.
  change (String "010" NL) with (NL +:+ NL). rewrite Hp2.
  unfold parse_header_lines.
  rewrite split_join;
    [|exact Hlines|eapply Forall_impl; [exact Hl|]; by intros ? [_ ?]].
  subst lines. rewrite (fold_header_lines h []) by done.
  change ([] ++ h) with h.
  unfold parse_body.
  rewrite dict_mem_absent.
  2: { intros Hin. apply list_elem_of_fmap in Hin as (kv & Ek & Hin).
       rewrite Forall_forall in Hok. destruct (Hok _ Hin) as (_ & _ & Hcl & _).
       by destruct Hcl. }
  unfold body_until_nul. change NUL with (String "000" "").
  rewrite (contains_find _ _ _ (find_byte_app "000" body "" Hbody)).
  rewrite (partition_byte "000" body "" Hbody). simpl.
  unfold emit. change (join "" [body]) with body.
  destruct (Frame_new command (Some h) body) as [f|e]; simpl; [|reflexivity].
  subst data rest.
  rewrite !len_app, len_NL.
  change (len (String "010" NL)) with 2. change (len (String "000" "")) with 1.
  change (len NUL) with 1.
  rewrite (proj2 (Z.eqb_eq _ _)) by lia. reflexivity.
Qed.

(** The parser reads the wire format back: a valid command, one header or
    more, none of them [content-length], and a body without NUL byte that
    ends at the first NUL byte. *)
Theorem parse_wire_frame command (h : dict) body :
  command ∈ ALL_CMDS -> h <> [] -> NoDup h.*1 -> Forall header_ok h ->
  no_byte "000" body = true ->
  parse (wire_format command h body) = Ok (mkFrame command (Some h) body).
Proof.
  intros Hc Hne Hnd Hok Hb.
  destruct (command_shape _ Hc) as (Hcn & a & t & Ea & _).
  rewrite parse_wire; try done.
  - by apply Frame_new_valid.
  - split; [by rewrite Ea|done].
Qed.

Lemma parse_wire_frame_witness :
  parse (wire_format "MESSAGE" [("destination", PyStr "/queue/x")] "hello")
    = Ok (mkFrame "MESSAGE" (Some [("destination", PyStr "/queue/x")]) "hello").
Proof.
  apply (parse_wire_frame "MESSAGE" [("destination", PyStr "/queue/x")] "hello").
  - apply (bool_decide_unpack _). vm_compute. exact I.
  - discriminate.
  - apply (bool_decide_unpack _). vm_compute. exact I.
  - repeat constructor; try reflexivity; simpl; try done. by eexists.
  - reflexivity.
Defined.

Lemma parse_leading_wire command (h : dict) data :
  command_line command -> h <> [] -> NoDup h.*1 -> Forall header_ok h ->
  parse_leading
    (command +:+ NL +:+ join NL (map format_header h) +:+ NL +:+ NL +:+ data)
  = body_until_nul command h []
      (len command + 1 + len (join NL (map format_header h)) + 2) data.
Proof.
  intros [Hc0 Hcn] Hne Hnd Hok.
  destruct command as [|a t] eqn:Ea; [done|]. rewrite <- Ea in *.
  assert (Ascii.eqb a "010" = false) as Ha.
  { rewrite Ea in Hcn. simpl in Hcn. apply andb_prop in Hcn as [Ha _].
    by apply negb_true_iff. }
  set (lines := map format_header h).
  assert (lines <> []) as Hlines by (subst lines; by destruct h).
  assert (Forall (fun l => l <> "" /\ no_byte "010" l = true) lines) as Hl.
  { subst lines. apply Forall_fmap. eapply Forall_impl; [exact Hok|].
    intros kv Hkv. simpl. destruct (format_header_ok kv Hkv) as (? & ? & _). auto. }
  set (rest := join NL lines +:+ NL +:+ NL +:+ data).
  set (whole := command +:+ NL +:+ rest).
  unfold parse_leading.
  assert (lstrip_nl whole = whole) as ->.
  { subst whole. rewrite Ea. simpl. by rewrite Ha. }
  rewrite Z.sub_diag, slice_from_0.
  assert (String.eqb whole "" = false) as ->.
  { subst whole. rewrite Ea. reflexivity. }
  assert (first_char whole = Ok a) as -> by (subst whole; by rewrite Ea).
  simpl. rewrite Ha.
  unfold parse_command.
  assert (partition NL whole = (command, NL, rest)) as Hp.
  { subst whole. change (NL +:+ rest) with (String "010" rest).
    by apply partition_byte. }
  assert (contains NL whole = true) as ->.
  { subst whole. change (NL +:+ rest) with (String "010" rest).
    eapply contains_find, find_byte_app, Hcn. }
  simpl. rewrite Hp. simpl.
  unfold parse_headers.
  assert (find (NL +:+ NL) rest = Some (String.length (join NL lines))) as Hf.
  { subst rest. by apply find_end_of_headers. }
  assert (partition (NL +:+ NL) rest = (join NL lines, NL +:+ NL, data)) as Hp2.
  { unfold partition. rewrite Hf. subst rest.
    rewrite take_str_app.
    by rewrite <- (str_app_assoc NL NL), drop_str_app_sep. }
  rewrite (contains_find _ _ _ Hf). simpl.
  change (String "010" NL) with (NL +:+ NL). rewrite Hp2.
  unfold parse_header_lines.
  rewrite split_join;
    [|exact Hlines|eapply Forall_impl; [exact Hl|]; by intros ? [_ ?]].
  subst lines. rewrite (fold_header_lines h []) by done.
  change ([] ++ h) with h.
  unfold parse_body.
  rewrite dict_mem_absent.
  2: { intros Hin. apply list_elem_of_fmap in Hin as (kv & Ek & Hin).
       rewrite Forall_forall in Hok. destruct (Hok _ Hin) as (_ & _ & Hcl & _).
       by destruct Hcl. }
  rewrite len_NL. change (len (String "010" NL)) with 2.
  reflexivity.
Qed.

(** A command that is not one of [ALL_CMDS] is found out only when the
    whole frame has been read: the parse raises the [ValueError] of
    [Frame_new] for it, but the parser raises nothing on the frame without
    its last byte, where it waits for more, and raises when it is resumed
    with that byte. *)
Theorem parse_unknown_command command (h : dict) body :
  command_line command -> command ∉ ALL_CMDS ->
  h <> [] -> NoDup h.*1 -> Forall header_ok h -> no_byte "000" body = true ->
  parse (wire_format command h body) = Raise (ValueError_invalid_command command) /\
  exists chunk p,
    wire_format command h body = chunk +:+ NUL /\
    send Leading chunk = Ok (p, (None, len chunk)) /\
    send p NUL = Raise (ValueError_invalid_command command).
Proof.
  intros Hc Hn Hne Hnd Hok Hb. split.
  { rewrite parse_wire by done.
    unfold Frame_new. by rewrite bool_decide_eq_false_2. }
  exists (command +:+ NL +:+ join NL (map format_header h) +:+ NL +:+ NL +:+ body).
  eexists. split; [|split].
  - rewrite (join_lines_wire _ _ _ Hne). by rewrite !str_app_assoc.
  - change (send Leading ?c) with (parse_leading c).
    rewrite parse_leading_wire by done.
    unfold body_until_nul, contains. change NUL with (String "000" "").
    rewrite (find_byte_absent _ _ Hb). simpl. do 3 f_equal.
    unfold len. rewrite ?str_length_app. cbn [String.length].
    rewrite ?str_length_app. cbn [String.length]. lia.
  - simpl. unfold body_until_nul, emit, Frame_new. simpl.
    by rewrite bool_decide_eq_false_2.
Qed.

Lemma parse_unknown_command_witness :
  parse (wire_format "BOGUS" [("a", PyStr "b")] "")
    = Raise (ValueError_invalid_command "BOGUS") /\
  exists chunk p,
    wire_format "BOGUS" [("a", PyStr "b")] "" = chunk +:+ NUL /\
    send Leading chunk = Ok (p, (None, len chunk)) /\
    send p NUL = Raise (ValueError_invalid_command "BOGUS").
Proof.
  apply (parse_unknown_command "BOGUS" [("a", PyStr "b")] "").
  - split; [discriminate|reflexivity].
  - apply (bool_decide_unpack _). vm_compute. exact I.
  - discriminate.
  - apply (bool_decide_unpack _). vm_compute. exact I.
  - repeat constructor; try reflexivity; simpl; try done. by eexists.
  - reflexivity.
Defined.

(** The wire format of a frame without headers is never a complete frame
    for the parser: after the command line the header loop waits for two
    newlines in a row, and one newline is all there is. *)
Theorem parse_without_headers_incomplete command body :
  command_line command ->
  contains (NL +:+ NL) (NL +:+ body +:+ NUL) = false ->
  parse (wire_format command [] body)
    = Raise (ValueError_incomplete (len (wire_format command [] body))).
Proof.
  intros [Hc0 Hcn] Hb.
  destruct command as [|a t] eqn:Ea; [done|]. rewrite <- Ea in *.
  assert (Ascii.eqb a "010" = false) as Ha.
  { rewrite Ea in Hcn. simpl in Hcn. apply andb_prop in Hcn as [Ha _].
    by apply negb_true_iff. }
  apply (parse_incomplete_buffer_aux _
           (InHeaders command [NL +:+ body +:+ NUL])
           (len (wire_format command [] body))).
  unfold wire_format. change (join "" (map _ [])) with "".
  change ("" +:+ NL +:+ body +:+ NUL) with (NL +:+ body +:+ NUL).
  set (rest := NL +:+ body +:+ NUL) in *.
  set (data := command +:+ NL +:+ rest).
  simpl. unfold parse_leading.
  assert (lstrip_nl data = data) as ->.
  { subst data. rewrite Ea. simpl. by rewrite Ha. }
  rewrite Z.sub_diag, slice_from_0.
  assert (String.eqb data "" = false) as ->.
  { subst data. rewrite Ea. reflexivity. }
  assert (first_char data = Ok a) as -> by (subst data; by rewrite Ea).
  simpl. rewrite Ha. unfold parse_command.
  assert (partition NL data = (command, NL, rest)) as Hp.
  { subst data. change (NL +:+ rest) with (String "010" rest).
    by apply partition_byte. }
  assert (contains NL data = true) as ->.
  { subst data. change (NL +:+ rest) with (String "010" rest).
    eapply contains_find, find_byte_app, Hcn. }
  simpl. rewrite Hp. simpl. unfold parse_headers.
  change (String "010" NL) with (NL +:+ NL). rewrite Hb. simpl.
  subst data. rewrite !len_app. do 3 f_equal. lia.
Qed.

Lemma parse_without_headers_incomplete_witness :
  parse (wire_format "ACK" [] "") = Raise (ValueError_incomplete 6).
Proof.
  apply (parse_without_headers_incomplete "ACK" "").
  - split; [discriminate|reflexivity].
  - reflexivity.
Defined.

(** ** Lookup after update *)

Lemma dict_get_set k v d : dict_get k (dict_set k v d) = v.
Proof.
  induction d as [|[k' v'] d IH]; simpl.
  - by rewrite String.eqb_refl.
  - destruct (String.eqb k' k) eqn:E; simpl; by rewrite E.
Qed.

Lemma dict_get_set_ne k k' v d :
  k <> k' -> dict_get k' (dict_set k v d) = dict_get k' d.
Proof.
  intros Hne. induction d as [|[k0 v0] d IH]; simpl.
  - by rewrite (proj2 (String.eqb_neq k k')).
  - destruct (String.eqb k0 k) eqn:E; simpl; [|by rewrite IH].
    apply String.eqb_eq in E as ->.
    by rewrite (proj2 (String.eqb_neq k k')).
Qed.

Lemma dict_mem_set_ne k k' v d :
  k <> k' -> dict_mem k' (dict_set k v d) = dict_mem k' d.
Proof.
  intros Hne. induction d as [|[k0 v0] d IH]; simpl.
  - by rewrite (proj2 (String.eqb_neq k k')).
  - destruct (String.eqb k0 k) eqn:E; simpl; [|by rewrite IH].
    apply String.eqb_eq in E as ->.
    by rewrite (proj2 (String.eqb_neq k k')).
Qed.

(** ** Header lines *)

Lemma split_cons c s : exists w ws, split c s = w :: ws.
Proof.
  induction s as [|a s (w & ws & IH)]; simpl; [by eexists _, _|].
  destruct (Ascii.eqb a c); [by eexists _, _|]. rewrite IH. by eexists _, _.
Qed.

Lemma split_snoc c l : forall s,
  no_byte c l = true -> split c (s +:+ String c l) = split c s ++ [l].
Proof.
  intros s Hl. induction s as [|a s IH]; simpl.
  - by rewrite Ascii.eqb_refl, (split_no_byte _ _ Hl).
  - destruct (Ascii.eqb a c); [by rewrite IH|].
    rewrite IH. by destruct (split_cons c s) as (w & ws & ->).
Qed.

Lemma later_lines_keep key v (after : list string) : forall acc : dict,
  dict_get key acc = v ->
  Forall (fun l => (partition ":" l).1.1 <> key) after ->
  dict_get key
    (fold_left
       (fun headers cur_header =>
          let '(key, _, value) := partition ":" cur_header in
          dict_set key (PyStr value) headers)
       after acc) = v.
Proof.
  induction after as [|l after IH]; intros acc Hacc H; [exact Hacc|].
  inversion H as [|? ? Hl Hafter]; subst. simpl.
  destruct (partition ":" l) as [[k sep] value] eqn:E. simpl in Hl.
  apply IH; [|exact Hafter]. by rewrite dict_get_set_ne.
Qed.

(** In a header block the last line of a key decides the value of the
    key, wherever in the block that line stands: the key is what stands
    before the first colon of the line, the value all that stands after
    it, further colons included, whatever lines come before it and
    whatever lines of other keys come after it. *)
Theorem last_header_line_wins before key value after :
  no_byte ":" key = true -> no_byte "010" key = true ->
  no_byte "010" value = true ->
  Forall (fun l => no_byte "010" l = true) before ->
  Forall (fun l => no_byte "010" l = true /\ (partition ":" l).1.1 <> key) after ->
  dict_get key
    (parse_header_lines (join NL (before ++ [key +:+ ":" +:+ value] ++ after)))
    = PyStr value.
Proof.
  intros Hk Hkn Hv Hbefore Hafter. unfold parse_header_lines.
  assert (Hline : no_byte "010" (key +:+ ":" +:+ value) = true).
  { clear Hk Hafter. induction key as [|a k IH]; simpl in *; [exact Hv|].
    apply andb_prop in Hkn as [-> Hkn]. simpl. auto. }
  rewrite split_join.
  - rewrite !fold_left_app. apply later_lines_keep.
    + simpl. change (":" +:+ value) with (String ":" value).
      rewrite (partition_byte ":" key value Hk). apply dict_get_set.
    + eapply Forall_impl; [exact Hafter|]. by intros l [_ ?].
  - by destruct before.
  - apply Forall_app. split; [exact Hbefore|].
    constructor; [exact Hline|].
    eapply Forall_impl; [exact Hafter|]. by intros l [? _].
Qed.

Lemma last_header_line_wins_witness :
  dict_get "a"
    (parse_header_lines (join NL (["a:1"] ++ ["a" +:+ ":" +:+ "x:y"] ++ ["b:3"])))
    = PyStr "x:y".
Proof.
  apply (last_header_line_wins ["a:1"] "a" "x:y" ["b:3"]);
    try reflexivity; repeat constructor; discriminate.
Defined.

(** ** What [serialize] does to the headers *)




Lemma serialize_with_headers_witness :
  "SEND" +:+ NL +:+ "destination:/queue/x" +:+ NL +:+ "content-length:5" +:+ NL
    +:+ NL +:+ "hello" +:+ NUL
  = wire_format "SEND"
      [("destination", PyStr "/queue/x"); ("content-length", PyInt 5)] "hello".
Proof.
  apply (serialize_with_headers hello_frame _
           (mkFrame "SEND"
              (Some [("destination", PyStr "/queue/x"); ("content-length", PyInt 5)])
              "hello"));
    [reflexivity|reflexivity|discriminate].
Defined.

(** ** Witnesses and the shape of a parsed frame *)

Lemma newline_before_frame_witness :
  parse (NL +:+ small_frame_bytes) = Ok small_frame.
Proof. apply (newline_before_frame small_frame_bytes small_frame). reflexivity. Defined.

Lemma send_never_heartbeat_witness : command small_frame <> "HEARTBEAT".
Proof.
  apply (send_never_heartbeat Leading small_frame_bytes Yielded small_frame 11).
  reflexivity.
Defined.

(** A frame that [Frame.parse] returns has one of the commands of
    [ALL_CMDS] and a header dictionary, never [None], whose values are all
    byte strings. *)
Theorem parse_result_shape data f :
  parse data = Ok f -> command f ∈ ALL_CMDS /\ frame_ok f.
Proof.
  unfold parse. simpl.
  destruct (parse_leading data) as [[p [fr n]]|] eqn:E; simpl; [|discriminate].
  destruct (negb _); [discriminate|]. destruct fr as [f'|]; [|discriminate].
  intros [= <-]. split.
  - by apply (parse_leading_command data p f' n).
  - by apply (parse_leading_sound data p (Some f') n E).
Qed.

Lemma parse_result_shape_witness :
  command small_frame ∈ ALL_CMDS /\ frame_ok small_frame.
Proof. apply (parse_result_shape small_frame_bytes). reflexivity. Defined.

Lemma receipt_never_removed_witness :
  no_receipt (set_no_receipt {[PyInt 0]} listening) = {[PyInt 0]}.
Proof.
  change (no_receipt (set_no_receipt {[PyInt 0]} listening)
          = no_receipt (set_no_receipt {[PyInt 0]} listening)).
  apply (receipt_never_removed 0 (mkSocket receipt_bytes [])
           (mkFrame "RECEIPT" (Some [("receipt-id", PyStr "0")]) "")
           (mkSocket receipt_bytes [])
           (set_no_receipt {[PyInt 0]} listening)
           (set_no_receipt {[PyInt 0]} listening) []).
  - intros v Hv. simpl in Hv. apply elem_of_singleton in Hv. by eexists.
  - reflexivity.
  - reflexivity.
Defined.

(** ** The outbound queue is first in, first out *)


(** One event: what was written, then what is queued, is what was queued
    before, then what the event has put. *)
Lemma valid_command_new command (h : option dict) body :
  bool_decide (command ∈ ALL_CMDS) = true ->
  Frame_new command h body = Ok (mkFrame command h body).
Proof. intros H. unfold Frame_new. by rewrite H. Qed.

Lemma Connection_send_Ok self d b e :
  exists h,
    Connection_send self d b e
    = Ok (put (mkFrame "SEND" (Some h) b)
            (set_msg_id (msg_id self + 1)
               (set_no_receipt (no_receipt self ∪ {[PyInt (msg_id self)]}) self))).
Proof.
  unfold Connection_send. eexists.
  rewrite valid_command_new by (vm_compute; reflexivity). reflexivity.
Qed.

Lemma subscribe_Ok self d :
  subscribe self d
  = Ok (put (mkFrame "SUBSCRIBE"
               (Some [("subscription", PyStr d); ("id", PyInt (sub_id self + 1));
                      ("ack", PyStr "auto")]) "")
          (set_sub_id (sub_id self + 1) self)).
Proof.
  unfold subscribe. rewrite valid_command_new by (vm_compute; reflexivity).
  reflexivity.
Qed.

Lemma disconnect_Ok self :
  disconnect self = Ok (put (mkFrame "DISCONNECT" (Some []) "") self).
Proof.
  unfold disconnect. rewrite valid_command_new by (vm_compute; reflexivity).
  reflexivity.
Qed.

Lemma recv_dispatch_cases self cur self' calls :
  recv_dispatch self cur = Ok (self', calls) ->
  calls = [] /\
  exists q s,
    self' = set_no_receipt s (set_send_q q self) /\
    (q = send_q self \/ q = send_q self ++ [mkFrame "ACK" (Some []) ""]) /\
    (s = no_receipt self \/
     exists v, v ∈ no_receipt self /\ s = no_receipt self ∖ {[v]}).
Proof.
  destruct self as [m r e q0 rdy brk stp std ses inf mid sid nr].
  unfold recv_dispatch.
  destruct (String.eqb (command cur) "MESSAGE"),
    (String.eqb (command cur) "RECEIPT"); simpl;
    destruct (headers cur) as [h|]; simpl; try discriminate;
    try destruct (dict_mem "ack" h); simpl;
    try case_bool_decide; simpl;
    intros [= Hs <-]; (split; [reflexivity|]);
    exists (send_q self'), (no_receipt self'); subst self';
    (split; [reflexivity|]); simpl;
    (split; [first [left; reflexivity | right; reflexivity]|]);
    first [left; reflexivity | right; eexists; split; [eassumption|reflexivity]].
Qed.

Lemma fixer_keeps_queue self io :
  send_q (run_socket_fixer_iter self io) = send_q self.
Proof.
  unfold run_socket_fixer_iter, _reconnect.
  destruct io as [resp|]; simpl; [|done].
  destruct (negb _); [done|]. destruct (headers resp) as [h|]; [|done].
  by destruct (dict_getitem "session" h).
Qed.


Lemma engine_step_appends self ev :
  (forall w, ev <> SenderPass w) ->
  exists l, send_q (engine_step self ev) = send_q self ++ l.
Proof.
  intros Hns.
  destruct ev as [d b e|d| |f| | |w|io|io]; unfold engine_step.
  - destruct (Connection_send_Ok self d b e) as [h ->]. by eexists [_].
  - rewrite subscribe_Ok. by eexists [_].
  - rewrite disconnect_Ok. by eexists [_].
  - by eexists [_].
  - exists []. rewrite app_nil_r. unfold start. by destruct (started self).
  - exists []. by rewrite app_nil_r.
  - by destruct (Hns w).
  - destruct io as [cur|e].
    2: { exists []. rewrite app_nil_r. by destruct e. }
    cbn [run_recv_iter].
    destruct (recv_dispatch self cur) as [[self' calls]|] eqn:E;
      [|exists []; by rewrite app_nil_r].
    destruct (recv_dispatch_cases _ _ _ _ E)
      as (_ & q & s & -> & [-> | ->] & _); simpl;
      [exists []; by rewrite app_nil_r|by eexists [_]].
  - exists []. rewrite app_nil_r.
    destruct (sock_broken self); [|done]. by rewrite fixer_keeps_queue.
Qed.




(** ** What the events keep *)

Lemma sender_step self w :
  engine_step self (SenderPass w) = self \/
  exists q, engine_step self (SenderPass w) = set_send_q q self \/
            engine_step self (SenderPass w) = on_socket_error (set_send_q q self).
Proof.
  unfold engine_step, run_send_iter.
  destruct (send_q self) as [|cur rest]; [by left|].
  destruct (serialize cur) as [[data cur']|]; [|by left].
  right. destruct w; simpl; eauto.
Qed.

Lemma fixer_step self io :
  engine_step self (FixerPass io) = self \/
  exists s i,
    engine_step self (FixerPass io) = run_ops reconnect_ops (set_session s i self).
Proof.
  unfold engine_step, run_socket_fixer_iter, _reconnect.
  destruct (sock_broken self); [|by left].
  destruct io as [resp|]; simpl; [|by left].
  destruct (negb _); [by left|]. destruct (headers resp) as [h|]; [|by left].
  destruct (dict_getitem "session" h); simpl; eauto.
Qed.

Lemma receiver_step self io :
  engine_step self (ReceiverPass io) = on_socket_error self \/
  exists q s,
    engine_step self (ReceiverPass io) = set_no_receipt s (set_send_q q self) /\
    s ⊆ no_receipt self.
Proof.
  unfold engine_step, run_recv_iter.
  assert (Hself : exists q s,
    self = set_no_receipt s (set_send_q q self) /\ s ⊆ no_receipt self).
  { exists (send_q self), (no_receipt self). by destruct self. }
  destruct io as [cur|e]; [|destruct e; auto].
  destruct (recv_dispatch self cur) as [[self' calls]|] eqn:E; [|auto].
  destruct (recv_dispatch_cases _ _ _ _ E) as (_ & q & s & -> & _ & Hs).
  right. exists q, s. split; [done|].
  destruct Hs as [->|(v & _ & ->)]; [done|].
  intros x Hx. by apply elem_of_difference in Hx as [Hx _].
Qed.

Lemma engine_step_keeps self ev :
  (started self = true -> started (engine_step self ev) = true) /\
  (stopping self = true -> stopping (engine_step self ev) = true) /\
  (exactly_one self = true -> exactly_one (engine_step self ev) = true) /\
  msg_id (engine_step self ev) = msg_id self + (if is_send ev then 1 else 0) /\
  sub_id (engine_step self ev)
    = sub_id self + (if is_subscribe ev then 1 else 0) /\
  no_receipt (engine_step self ev)
    ⊆ no_receipt self ∪ (if is_send ev then {[PyInt (msg_id self)]} else ∅).
Proof.
  destruct ev as [d b e|d| |f| | |w|io|io].
  - unfold engine_step. destruct (Connection_send_Ok self d b e) as [h ->].
    destruct self; simpl. repeat split; auto with lia.
  - unfold engine_step. rewrite subscribe_Ok.
    destruct self; simpl. repeat split; auto with lia. set_solver.
  - unfold engine_step. rewrite disconnect_Ok.
    destruct self; simpl. repeat split; auto with lia. set_solver.
  - destruct self; simpl. repeat split; auto with lia. set_solver.
  - unfold engine_step, start, exactly_one.
    destruct self as [? ? ? ? ? ? ? []]; simpl; repeat split; auto with lia;
      set_solver.
  - destruct self; simpl. repeat split; auto with lia. set_solver.
  - destruct (sender_step self w) as [->|[q [-> | ->]]];
      destruct self as [? ? ? ? [] []]; simpl; repeat split; auto with lia;
      set_solver.
  - destruct (receiver_step self io) as [->|(q & s & -> & Hs)];
      destruct self as [? ? ? ? [] []]; simpl in *; repeat split; auto with lia;
      set_solver.
  - destruct (fixer_step self io) as [->|(s & i & ->)];
      destruct self as [? ? ? ? [] []]; simpl; repeat split; auto with lia;
      set_solver.
Qed.

Lemma engine_run_keeps evs : forall self,
  (started self = true -> started (engine_run evs self) = true) /\
  (stopping self = true -> stopping (engine_run evs self) = true) /\
  (exactly_one self = true -> exactly_one (engine_run evs self) = true) /\
  msg_id (engine_run evs self) = msg_id self + sends_in evs /\
  sub_id (engine_run evs self) = sub_id self + subscriptions_in evs /\
  (forall v, v ∈ no_receipt (engine_run evs self) ->
     v ∈ no_receipt self \/
     exists z, v = PyInt z /\ msg_id self <= z < msg_id (engine_run evs self)).
Proof.
  induction evs as [|ev evs IH]; intros self.
  - simpl. repeat split; auto with lia.
  - destruct (engine_step_keeps self ev) as (H1 & H2 & H3 & H4 & H5 & H6).
    destruct (IH (engine_step self ev)) as (I1 & I2 & I3 & I4 & I5 & I6).
    change (engine_run (ev :: evs) self)
      with (engine_run evs (engine_step self ev)).
    assert (Hs : 0 <= sends_in evs).
    { clear. induction evs as [|ev evs IH]; simpl; [lia|].
      destruct (is_send ev); lia. }
    cbn [sends_in subscriptions_in].
    repeat split; auto with lia.
    intros v Hv. destruct (I6 v Hv) as [Hin|(z & -> & Hz)].
    + apply H6 in Hin. apply elem_of_union in Hin as [Hin|Hin]; [by left|].
      right. destruct (is_send ev); [|by apply not_elem_of_empty in Hin].
      apply elem_of_singleton in Hin as ->. eexists. split; [done|]. lia.
    + right. eexists. split; [done|]. destruct (is_send ev); lia.
Qed.

Lemma Connection_init_Ok m r e :
  Connection_init m r e
  = Ok (mkConnection m r e [] false true false true PyNone PyNone 0 0 ∅).
Proof. reflexivity. Qed.

(** From [Connection.__init__] on, over any sequence of calls and passes:
    [msg_id] is the number of calls of [send] and [sub_id] the number of
    calls of [subscribe], exactly one of the two flags is set, and every
    pending receipt id is an integer id that [send] has given out. *)
Theorem engine_counters m r e :
  exists self,
    Connection_init m r e = Ok self /\
    forall evs,
      msg_id (engine_run evs self) = sends_in evs /\
      sub_id (engine_run evs self) = subscriptions_in evs /\
      exactly_one (engine_run evs self) = true /\
      forall v, v ∈ no_receipt (engine_run evs self) ->
        exists z, v = PyInt z /\ 0 <= z < msg_id (engine_run evs self).
Proof.
  eexists. split; [apply Connection_init_Ok|]. intros evs.
  destruct (engine_run_keeps evs
    (mkConnection m r e [] false true false true PyNone PyNone 0 0 ∅))
    as (_ & _ & H3 & H4 & H5 & H6).
  simpl in *. repeat split; auto.
  intros v Hv. destruct (H6 v Hv) as [Hin|Hz]; [|done].
  by apply not_elem_of_empty in Hin.
Qed.

(** A connection is started once and for all by its constructor: whatever
    has happened since, [start] raises, and once [stop] has been called
    [stopping] stays set. *)
Theorem no_restart m r e :
  exists self,
    Connection_init m r e = Ok self /\
    forall evs,
      start (engine_run evs self) = Raise ValueError_start_twice /\
      forall evs', stopping (engine_run evs' (stop (engine_run evs self))) = true.
Proof.
  eexists. split; [apply Connection_init_Ok|]. intros evs. split.
  - destruct (engine_run_keeps evs
      (mkConnection m r e [] false true false true PyNone PyNone 0 0 ∅))
      as (H1 & _).
    unfold start. by rewrite H1.
  - intros evs'.
    by apply (engine_run_keeps evs' (stop (engine_run evs _))).
Qed.

(** ** Pending receipts pile up *)

Lemma recv_dispatch_keeps_receipts self cur self' calls :
  frame_ok cur -> int_receipts self ->
  recv_dispatch self cur = Ok (self', calls) ->
  no_receipt self' = no_receipt self.
Proof.
  intros (h & Hh & Hs) Hints. unfold recv_dispatch. rewrite Hh.
  assert (Hnot : dict_get "receipt-id" h ∉ no_receipt self).
  { intros Hin. apply Hints in Hin as [z Hz].
    destruct (dict_get_str_values "receipt-id" h Hs) as [E|[s E]];
      rewrite E in Hz; discriminate. }
  destruct (String.eqb (command cur) "MESSAGE"); simpl.
  - destruct (dict_mem "ack" h); simpl;
      (destruct (String.eqb (command cur) "RECEIPT"); simpl;
       [|by intros [= <- <-]]);
      (rewrite bool_decide_eq_false_2; [by intros [= <- <-]|done]).
  - destruct (String.eqb (command cur) "RECEIPT"); simpl; [|by intros [= <- <-]].
    rewrite bool_decide_eq_false_2; [by intros [= <- <-]|done].
Qed.

Lemma engine_step_receipts self ev :
  from_parser ev -> int_receipts self ->
  no_receipt (engine_step self ev)
  = no_receipt self ∪ (if is_send ev then {[PyInt (msg_id self)]} else ∅).
Proof.
  intros Hp Hints.
  destruct ev as [d b e|d| |f| | |w|io|io].
  - unfold engine_step. destruct (Connection_send_Ok self d b e) as [h ->].
    by destruct self.
  - unfold engine_step. rewrite subscribe_Ok. destruct self; simpl. by rewrite (right_id_L ∅ (∪)).
  - unfold engine_step. rewrite disconnect_Ok. destruct self; simpl. by rewrite (right_id_L ∅ (∪)).
  - destruct self; simpl. by rewrite (right_id_L ∅ (∪)).
  - unfold engine_step, start.
    destruct self as [? ? ? ? ? ? ? []]; simpl; by rewrite (right_id_L ∅ (∪)).
  - destruct self; simpl. by rewrite (right_id_L ∅ (∪)).
  - destruct (sender_step self w) as [->|[q [-> | ->]]];
      destruct self; simpl; by rewrite (right_id_L ∅ (∪)).
  - simpl. rewrite (right_id_L ∅ (∪)). unfold run_recv_iter.
    destruct io as [cur|e]; [|by destruct e].
    destruct (recv_dispatch self cur) as [[self' calls]|] eqn:E; [|done].
    by apply (recv_dispatch_keeps_receipts _ _ _ _ Hp Hints E).
  - destruct (fixer_step self io) as [->|(s & i & ->)];
      destruct self; simpl; by rewrite (right_id_L ∅ (∪)).
Qed.

Lemma engine_run_receipts evs : forall self,
  Forall from_parser evs -> int_receipts self ->
  forall v, v ∈ no_receipt (engine_run evs self) <->
    v ∈ no_receipt self \/
    exists z, v = PyInt z /\ msg_id self <= z < msg_id self + sends_in evs.
Proof.
  induction evs as [|ev evs IH]; intros self Hp Hints v.
  - simpl. split; [auto|]. intros [H|(z & _ & Hz)]; [done|lia].
  - inversion Hp as [|? ? Hev Hevs]; subst.
    change (engine_run (ev :: evs) self)
      with (engine_run evs (engine_step self ev)).
    assert (Hints' : int_receipts (engine_step self ev)).
    { intros x. rewrite (engine_step_receipts self ev Hev Hints).
      rewrite elem_of_union. intros [Hx|Hx]; [by apply Hints|].
      destruct (is_send ev); [|by apply not_elem_of_empty in Hx].
      apply elem_of_singleton in Hx as ->. by eexists. }
    rewrite (IH _ Hevs Hints').
    rewrite (engine_step_receipts self ev Hev Hints).
    destruct (engine_step_keeps self ev) as (_ & _ & _ & -> & _).
    assert (Hs : 0 <= sends_in evs).
    { clear. induction evs as [|ev evs IH]; simpl; [lia|].
      destruct (is_send ev); lia. }
    cbn [sends_in]. rewrite elem_of_union.
    destruct (is_send ev).
    + rewrite elem_of_singleton. split.
      * intros [[H| ->]|(z & -> & Hz)]; [by left| |];
          right; eexists; (split; [done|lia]).
      * intros [H|(z & -> & Hz)]; [by left; left|].
        destruct (decide (z = msg_id self)) as [->|Hne]; [by left; right|].
        right. eexists. split; [done|lia].
    + rewrite elem_of_empty. split.
      * intros [[H|[]]|(z & -> & Hz)]; [by left|].
        right; eexists; (split; [done|lia]).
      * intros [H|(z & -> & Hz)]; [by left; left|].
        right. eexists. split; [done|lia].
Qed.

(** While the frames that the receiver handles come from the parser, the
    pending receipt ids after any sequence of calls and passes are all the
    ids that [send] has given out since the connection was made, 0 to the
    number of calls less one: none is ever taken out. *)
Theorem receipts_accumulate m r e self evs v :
  Connection_init m r e = Ok self ->
  Forall from_parser evs ->
  v ∈ no_receipt (engine_run evs self) <->
  exists z, v = PyInt z /\ 0 <= z < sends_in evs.
Proof.
  rewrite Connection_init_Ok. intros [= <-] Hp.
  rewrite engine_run_receipts; [|done|].
  - simpl. split; [|auto]. intros [H|H]; [|done].
    by apply not_elem_of_empty in H.
  - intros x Hx. by apply not_elem_of_empty in Hx.
Qed.

Lemma receipts_accumulate_witness :
  PyInt 0 ∈ no_receipt
    (engine_run
       [CallSend "/queue/a" "hello" None;
        ReceiverPass
          (Ok (mkFrame "RECEIPT" (Some [("receipt-id", PyStr "0")]) ""))]
       (mkConnection None None None [] false true false true PyNone PyNone 0 0 ∅)).
Proof.
  apply (receipts_accumulate None None None _ _ _ eq_refl).
  - repeat constructor. eexists. split; [reflexivity|].
    repeat constructor. by eexists.
  - exists 0. split; [reflexivity|]. vm_compute. split; discriminate || reflexivity.
Defined.

(** ** The headers of a sent frame *)

Lemma dict_get_update (e : dict) : forall (d : dict) k,
  NoDup e.*1 ->
  dict_get k (dict_update d e)
  = if dict_mem k e then dict_get k e else dict_get k d.
Proof.
  unfold dict_update.
  induction e as [|[k0 v0] e IH]; intros d k Hnd; [reflexivity|].
  apply NoDup_cons in Hnd as [Hk0 Hnd]. simpl in *. rewrite IH by done.
  destruct (String.eqb k0 k) eqn:E.
  - apply String.eqb_eq in E as ->.
    by rewrite (dict_mem_absent _ _ Hk0), dict_get_set.
  - apply String.eqb_neq in E.
    by rewrite dict_get_set_ne.
Qed.

Lemma dict_mem_update (e : dict) : forall (d : dict) k,
  dict_mem k (dict_update d e) = dict_mem k e || dict_mem k d.
Proof.
  unfold dict_update.
  induction e as [|[k0 v0] e IH]; intros d k; [reflexivity|].
  simpl. rewrite IH.
  destruct (String.eqb k0 k) eqn:E.
  - apply String.eqb_eq in E as ->. rewrite dict_mem_set. by rewrite orb_true_r.
  - apply String.eqb_neq in E. by rewrite dict_mem_set_ne.
Qed.

Lemma Connection_send_update self destination body extra_headers :
  Connection_send self destination body extra_headers
  = Ok (put (mkFrame "SEND"
               (Some (dict_update (send_defaults self destination)
                        (default [] extra_headers))) body)
          (set_msg_id (msg_id self + 1)
             (set_no_receipt (no_receipt self ∪ {[PyInt (msg_id self)]}) self))).
Proof.
  unfold Connection_send.
  rewrite valid_command_new by (vm_compute; reflexivity).
  by destruct extra_headers as [[|kv e]|].
Qed.

(** [send] never raises.  It queues one SEND frame with the body given,
    records [msg_id] as a pending receipt and adds one to [msg_id].  In
    the headers of the frame every key of [extra_headers] has the value
    given there, also [destination] and [receipt]; the other keys are
    [destination], with the destination given, and [receipt], with the
    id recorded. *)
Theorem send_headers self destination body extra_headers :
  NoDup (default [] extra_headers).*1 ->
  exists h,
    Connection_send self destination body extra_headers
    = Ok (put (mkFrame "SEND" (Some h) body)
            (set_msg_id (msg_id self + 1)
               (set_no_receipt (no_receipt self ∪ {[PyInt (msg_id self)]}) self))) /\
    forall k,
      dict_get k h
      = (if dict_mem k (default [] extra_headers)
         then dict_get k (default [] extra_headers)
         else dict_get k [("destination", PyStr destination);
                          ("receipt", PyInt (msg_id self))]) /\
      dict_mem k h
      = dict_mem k (default [] extra_headers)
        || dict_mem k [("destination", PyStr destination);
                       ("receipt", PyInt (msg_id self))].
Proof.
  intros Hnd. eexists. split; [apply Connection_send_update|].
  intros k. split; [by apply dict_get_update|apply dict_mem_update].
Qed.

Lemma send_headers_witness :
  exists h,
    Connection_send just_started "/queue/a" "hello"
      (Some [("receipt", PyStr "mine"); ("persistent", PyStr "true")])
    = Ok (put (mkFrame "SEND" (Some h) "hello")
            (set_msg_id (msg_id just_started + 1)
               (set_no_receipt
                  (no_receipt just_started ∪ {[PyInt (msg_id just_started)]})
                  just_started))) /\
    forall k,
      dict_get k h
      = (if dict_mem k [("receipt", PyStr "mine"); ("persistent", PyStr "true")]
         then dict_get k [("receipt", PyStr "mine"); ("persistent", PyStr "true")]
         else dict_get k [("destination", PyStr "/queue/a");
                          ("receipt", PyInt (msg_id just_started))]) /\
      dict_mem k h
      = dict_mem k [("receipt", PyStr "mine"); ("persistent", PyStr "true")]
        || dict_mem k [("destination", PyStr "/queue/a");
                       ("receipt", PyInt (msg_id just_started))].
Proof.
  apply (send_headers just_started "/queue/a" "hello"
           (Some [("receipt", PyStr "mine"); ("persistent", PyStr "true")])).
  simpl. apply (bool_decide_unpack _). by vm_compute.
Defined.

(** Once [async.get_cur_correlation_id()] and [asf.serdes.vo2compbin(vo)]
    have returned, nothing else in [LARClient.send] raises.  The call
    queues one SEND frame for [/queue/relaydasf_msgs] that carries the
    event name, the correlation id and, as [receipt], the very id that it
    records as pending; the frame has no other header. *)
Theorem LARClient_send_frame conn body event_name correlation_id :
  exists h,
    LARClient_send conn body event_name correlation_id
    = Ok (put (mkFrame "SEND" (Some h) body)
            (set_msg_id (msg_id conn + 1)
               (set_no_receipt (no_receipt conn ∪ {[PyInt (msg_id conn)]}) conn))) /\
    dict_get "destination" h = PyStr "/queue/relaydasf_msgs" /\
    dict_get "receipt" h = PyInt (msg_id conn) /\
    dict_get "event_name" h = PyStr event_name /\
    dict_get "correlation_id" h = correlation_id /\
    forall k, dict_mem k h = true ->
      k ∈ ["destination"; "receipt"; "event_name"; "correlation_id"].
Proof.
  unfold LARClient_send. eexists. split; [apply Connection_send_update|].
  repeat split.
  intros k. rewrite dict_mem_update.
  unfold send_defaults. cbn [dict_mem default from_option id fst snd].
  destruct (String.eqb "event_name" k) eqn:E1;
    [apply String.eqb_eq in E1 as <-; set_solver|].
  destruct (String.eqb "correlation_id" k) eqn:E2;
    [apply String.eqb_eq in E2 as <-; set_solver|].
  destruct (String.eqb "destination" k) eqn:E3;
    [apply String.eqb_eq in E3 as <-; set_solver|].
  destruct (String.eqb "receipt" k) eqn:E4;
    [apply String.eqb_eq in E4 as <-; set_solver|].
  discriminate.
Qed.

(** ** The handshake *)

Lemma dict_getitem_mem k (d : dict) :
  dict_getitem k d = if dict_mem k d then Ok (dict_get k d) else Raise KeyError.
Proof.
  induction d as [|[k' v] d IH]; simpl; [reflexivity|].
  by destruct (String.eqb k' k).
Qed.

(** What the rest of [_reconnect] makes of the answer to the handshake. *)
Lemma answer_outcome self io :
  (exists resp h,
     io = Ok resp /\ command resp = "CONNECTED" /\ headers resp = Some h /\
     dict_mem "session" h = true /\
     run_socket_fixer_iter self io
     = set_sock_ready true
         (set_sock_broken false
            (set_session (dict_get "session" h) (dict_get "server" h) self))) \/
  ((forall resp h,
      io = Ok resp -> command resp = "CONNECTED" -> headers resp = Some h ->
      dict_mem "session" h = false) /\
   run_socket_fixer_iter self io = self).
Proof.
  unfold run_socket_fixer_iter, _reconnect.
  destruct io as [resp|e]; simpl; [|right; split; [discriminate|done]].
  destruct (String.eqb (command resp) "CONNECTED") eqn:Ec; simpl.
  - apply String.eqb_eq in Ec.
    destruct (headers resp) as [h|] eqn:Eh;
      [|right; split; [intros ? ? [= <-]; congruence|done]].
    rewrite dict_getitem_mem.
    destruct (dict_mem "session" h) eqn:Em; simpl.
    + left. by exists resp, h.
    + right. split; [|done]. intros ? ? [= <-] _. congruence.
  - apply String.eqb_neq in Ec.
    right. split; [|done]. intros ? ? [= <-]. congruence.
Qed.

(** One pass of the reconnector.  The socket the connection had, if any,
    has been handed to [killsock].  If that call and [get_connection]
    returned, [self.sock] and [self.sock_container[0]] are the new socket,
    and then a CONNECTED frame with a [session] header makes the
    connection store the session and the server ([None] when the frame
    names none), clear [sock_broken] and set [sock_ready], while any
    other answer to the handshake leaves the session, the server, the
    flags, the queue, the counters and the pending receipts as they were.
    If one of the two calls raised, the socket fields and all the rest are
    as they were. *)
Theorem handshake_outcome self w killsock get_connection handshake :
  exists self' w',
    run_socket_fixer_pass self w killsock get_connection handshake = (self', w') /\
    killed w' = match sock w with Some s => s :: killed w | None => killed w end /\
    ((exists s,
        (sock w = None \/ killsock = Ok ()) /\ get_connection = Ok s /\
        sock w' = Some s /\ sock_container w' = Some s /\
        ((exists resp h,
            handshake = Ok resp /\ command resp = "CONNECTED" /\
            headers resp = Some h /\ dict_mem "session" h = true /\
            self' = set_sock_ready true
                      (set_sock_broken false
                         (set_session (dict_get "session" h)
                            (dict_get "server" h) self))) \/
         ((forall resp h,
             handshake = Ok resp -> command resp = "CONNECTED" ->
             headers resp = Some h -> dict_mem "session" h = false) /\
          self' = self))) \/
     (((sock w <> None /\ exists e, killsock = Raise e) \/
       exists e, get_connection = Raise e) /\
      sock w' = sock w /\ sock_container w' = sock_container w /\
      self' = self)).
Proof.
  unfold run_socket_fixer_pass.
  destruct w as [[s0|] c0 k0]; cbn [sock sock_container killed].
  - destruct killsock as [[]|e].
    + destruct get_connection as [s|e].
      * eexists _, _. split; [reflexivity|]. split; [reflexivity|].
        left. exists s. repeat split; auto. apply answer_outcome.
      * eexists _, _. split; [reflexivity|]. split; [reflexivity|].
        right. repeat split; eauto.
    + eexists _, _. split; [reflexivity|]. split; [reflexivity|].
      right. repeat split; eauto.
  - destruct get_connection as [s|e].
    + eexists _, _. split; [reflexivity|]. split; [reflexivity|].
      left. exists s. repeat split; auto. apply answer_outcome.
    + eexists _, _. split; [reflexivity|]. split; [reflexivity|].
      right. repeat split; eauto.
Qed.

(** ** A frame without a header dictionary *)





(** ** The end of the stream *)

Lemma body_until_nul_waiting command headers sofar consumed data p n :
  body_until_nul command headers sofar consumed data = Ok (p, (None, n)) ->
  waiting p.
Proof.
  unfold body_until_nul. destruct (negb (contains NUL data)).
  - by intros [= <- _].
  - destruct (partition NUL data) as [[end_of_body sep] leftover].
    unfold emit. by destruct (Frame_new _ _ _).
Qed.

Lemma parse_body_waiting command headers consumed data p n :
  str_values headers ->
  parse_body command headers consumed data = Ok (p, (None, n)) -> waiting p.
Proof.
  intros Hs. unfold parse_body.
  destruct (dict_mem "content-length" headers) eqn:Em.
  - destruct (dict_getitem_str _ _ Hs Em) as [s ->]. discriminate.
  - apply body_until_nul_waiting.
Qed.

Lemma parse_headers_waiting command sofar consumed data p n :
  parse_headers command sofar consumed data = Ok (p, (None, n)) -> waiting p.
Proof.
  unfold parse_headers. destruct (negb (contains (NL +:+ NL) data)).
  - by intros [= <- _].
  - destruct (partition (NL +:+ NL) (join "" (sofar ++ [data])))
      as [[header_str sep] rest].
    apply parse_body_waiting, parse_header_lines_str_values.
Qed.

Lemma parse_command_waiting sofar consumed data p n :
  parse_command sofar consumed data = Ok (p, (None, n)) -> waiting p.
Proof.
  unfold parse_command. destruct (negb (contains NL data)).
  - by intros [= <- _].
  - destruct (partition NL data) as [[end_ sep] rest].
    apply parse_headers_waiting.
Qed.

Lemma parse_leading_waiting chunk p n :
  parse_leading chunk = Ok (p, (None, n)) -> waiting p.
Proof.
  unfold parse_leading. destruct (String.eqb _ ""); [by intros [= <- _]|].
  destruct (first_char _) as [c|]; [|discriminate]. simpl.
  destruct (Ascii.eqb c "010"); [discriminate|].
  apply parse_command_waiting.
Qed.

(** The error for an incomplete frame is raised by [Frame.parse] only,
    not by the parser. *)
Lemma body_until_nul_not_incomplete command headers sofar consumed data n :
  body_until_nul command headers sofar consumed data
  <> Raise (ValueError_incomplete n).
Proof.
  unfold body_until_nul. destruct (negb (contains NUL data)); [discriminate|].
  destruct (partition NUL data) as [[end_of_body sep] leftover].
  unfold emit, Frame_new. by destruct (negb _).
Qed.

Lemma parse_headers_not_incomplete command sofar consumed data n :
  parse_headers command sofar consumed data <> Raise (ValueError_incomplete n).
Proof.
  unfold parse_headers.
  destruct (negb (contains (NL +:+ NL) data)); [discriminate|].
  destruct (partition (NL +:+ NL) (join "" (sofar ++ [data])))
    as [[header_str sep] rest].
  unfold parse_body.
  destruct (dict_mem "content-length" _) eqn:Em.
  - destruct (dict_getitem_str _ _ (parse_header_lines_str_values header_str) Em)
      as [s ->]. discriminate.
  - apply body_until_nul_not_incomplete.
Qed.

Lemma parse_leading_not_incomplete chunk n :
  parse_leading chunk <> Raise (ValueError_incomplete n).
Proof.
  unfold parse_leading. destruct (String.eqb _ ""); [discriminate|].
  destruct (first_char _) as [c|] eqn:Ec; simpl.
  - destruct (Ascii.eqb c "010"); [discriminate|].
    unfold parse_command. destruct (negb (contains NL _)); [discriminate|].
    destruct (partition NL _) as [[end_ sep] rest].
    apply parse_headers_not_incomplete.
  - unfold first_char in Ec. destruct (slice_from _ _); by inversion Ec.
Qed.

(** Resumed with the empty string, a waiting parser goes on waiting and
    reports no byte consumed. *)
Lemma waiting_send_empty p :
  waiting p -> exists p', send p "" = Ok (p', (None, 0)) /\ waiting p'.
Proof.
  destruct p; intros []; eexists; (split; [reflexivity|exact I]).
Qed.

Lemma socket_loop_end_of_stream fuel : forall p n buffered,
  waiting p -> drop_str (Z.to_nat n) buffered = "" ->
  socket_loop fuel p None n (mkSocket buffered []) = None.
Proof.
  induction fuel as [|fuel IH]; intros p n buffered Hw Hd; [reflexivity|].
  cbn [socket_loop recv recv_peek arrive wire inbox fst snd]. rewrite Hd.
  destruct (waiting_send_empty p Hw) as (p' & Hp' & Hw').
  change (take_str 4096 "") with "". rewrite Hp'.
  by rewrite (IH p' 0 "" Hw' eq_refl).
Qed.

Lemma drop_str_all s : drop_str (String.length s) s = "".
Proof. induction s as [|a s IH]; [reflexivity|exact IH]. Qed.

(** When the peer has closed the stream and the bytes that have arrived
    are an incomplete frame for [Frame.parse], [parse_from_socket] never
    returns: it does not raise either, but peeks the empty socket and
    resumes the parser with the empty string over and over. *)
Theorem parse_from_socket_end_of_stream sock n fuel :
  wire sock = [] -> (String.length (inbox sock) <= 4096)%nat ->
  parse (inbox sock) = Raise (ValueError_incomplete n) ->
  parse_from_socket fuel sock = None.
Proof.
  destruct sock as [buffered w]. cbn [wire inbox]. intros -> Hlen Hp.
  unfold parse_from_socket, parse_from_socket_hist.
  cbn [next _parse_iter recv_peek arrive wire inbox].
  rewrite (take_str_all _ _ Hlen).
  unfold parse in Hp. cbn [next _parse_iter mbind result_bind] in Hp.
  change (send Leading buffered) with (parse_leading buffered) in *.
  destruct (parse_leading buffered) as [[p [fr bc]]|] eqn:E;
    [|exfalso; simpl in Hp; injection Hp as ->;
      exact (parse_leading_not_incomplete buffered n E)].
  cbn in Hp. destruct (bc =? len buffered) eqn:Eb; [|discriminate].
  destruct fr as [f|]; [discriminate|]. clear Hp.
  apply Z.eqb_eq in Eb as ->.
  rewrite socket_loop_end_of_stream; [reflexivity| |].
  - by apply parse_leading_waiting in E.
  - unfold len. rewrite Nat2Z.id. apply drop_str_all.
Qed.

Lemma parse_from_socket_end_of_stream_witness :
  parse_from_socket 7 (mkSocket "SEND
destination:/queue/a" []) = None.
Proof.
  apply (parse_from_socket_end_of_stream _ 25); [reflexivity|vm_compute; lia|].
  vm_compute. reflexivity.
Defined.

(** ** The sender's loop *)

(** The pass of [run_send_iter] is the step of the loop from [AtPeek]. *)
Lemma run_send_iter_step self sendall :
  run_send_iter self sendall
  = match _run_send_step sendall AtPeek self with
    | None => None
    | Some (SenderRaised e, _, _) => Some (Raise e)
    | Some (_, self', _) => Some (Ok self')
    end.
Proof.
  unfold run_send_iter, _run_send_step.
  destruct (send_q self) as [|cur rest]; [reflexivity|].
  destruct (serialize cur) as [[serial cur']|e]; [|reflexivity].
  destruct (sendall serial) as [[]|e]; [reflexivity|]. by destruct e.
Qed.

Lemma engine_run_appends evs : forall self,
  Forall other_than_sender evs ->
  exists queued, send_q (engine_run evs self) = send_q self ++ queued.
Proof.
  induction evs as [|ev evs IH]; intros self H.
  - exists []. by rewrite app_nil_r.
  - inversion H as [|? ? Hev Hevs]; subst.
    destruct (engine_step_appends self ev) as [l1 H1].
    { intros w ->. exact Hev. }
    destruct (IH (engine_step self ev) Hevs) as [l2 H2].
    exists (l1 ++ l2).
    change (engine_run (ev :: evs) self)
      with (engine_run evs (engine_step self ev)).
    by rewrite H2, H1, (assoc_L (++)).
Qed.

(** C9.  The sender over a queue with [cur] at its head.  If the write
    raises [socket.error] the queue afterwards still starts with that
    frame, as [serialize] left it, followed by the same frames as before;
    the flags say BROKEN; and the same bytes are there to be written
    again.  If the write succeeds the frame is gone from the queue.  In no
    other case does the pass end with a queue: the frame is removed only
    by a write that succeeded.  After the failed write the sender stands
    in [sock_ready.wait()].  Whatever the callers, the receiver and the
    reconnector do in the meantime, the failed frame stays at the head of
    the queue, ahead of what was queued since.  The sender does not move
    while [sock_ready] is clear; once it is set the sender goes to its
    loop test and from there, unless [stop] was called, to the head of
    the queue, and the bytes that it hands to [sendall] are those of the
    failed write: the first write after the failure is the retry. *)
Theorem failed_write_keeps_head self cur rest serial cur' sendall :
  send_q self = cur :: rest ->
  serialize cur = Ok (serial, cur') ->
  (sendall serial = Raise socket_error ->
   exists self',
     run_send_iter self sendall = Some (Ok self') /\
     send_q self' = cur' :: rest /\
     command cur' = command cur /\ body cur' = body cur /\
     serialize cur' = Ok (serial, cur') /\
     sock_ready self' = false /\ sock_broken self' = true) /\
  (sendall serial = Ok () ->
   exists self',
     run_send_iter self sendall = Some (Ok self') /\ send_q self' = rest) /\
  (forall self',
     run_send_iter self sendall = Some (Ok self') ->
     (sendall serial = Ok () /\ send_q self' = rest) \/
     (sendall serial = Raise socket_error /\ send_q self' = cur' :: rest)) /\
  (sendall serial = Raise socket_error ->
   exists self',
     _run_send_step sendall AtPeek self = Some (AtReadyWait, self', Some serial) /\
     forall evs again,
       Forall other_than_sender evs ->
       exists queued,
         send_q (engine_run evs self') = cur' :: rest ++ queued /\
         _run_send_step again AtReadyWait (engine_run evs self')
         = (if sock_ready (engine_run evs self')
            then Some (AtLoopTest, engine_run evs self', None) else None) /\
         _run_send_step again AtLoopTest (engine_run evs self')
         = Some (if stopping (engine_run evs self') then SenderReturned else AtPeek,
                 engine_run evs self', None) /\
         exists at_ self'',
           _run_send_step again AtPeek (engine_run evs self')
           = Some (at_, self'', Some serial) /\
           (again serial = Ok () ->
            at_ = AtLoopTest /\ send_q self'' = rest ++ queued) /\
           (again serial = Raise socket_error ->
            at_ = AtReadyWait /\ send_q self'' = cur' :: rest ++ queued)).
Proof.
  intros Hq Hs.
  destruct (serialize_same_frame _ _ _ Hs) as [Hc Hb].
  pose proof (serialize_again _ _ _ Hs) as Hagain.
  split; [|split; [|split]].
  - unfold run_send_iter. rewrite Hq, Hs.
    intros ->. eexists. split; [reflexivity|]. by repeat split.
  - unfold run_send_iter. rewrite Hq, Hs.
    intros ->. eexists. split; reflexivity.
  - unfold run_send_iter. rewrite Hq, Hs.
    intros self'. destruct (sendall serial) as [[]|e].
    + intros [= <-]. left. split; reflexivity.
    + destruct e; try discriminate. intros [= <-]. right. split; reflexivity.
  - intros Hfail. eexists. split.
    { unfold _run_send_step. rewrite Hq, Hs, Hfail. reflexivity. }
    intros evs again Hevs.
    destruct (engine_run_appends evs
                (on_socket_error (set_send_q (cur' :: rest) self)) Hevs)
      as [queued Hqueued].
    exists queued. cbn [send_q on_socket_error] in Hqueued.
    assert (Hq2 : send_q (engine_run evs
                    (on_socket_error (set_send_q (cur' :: rest) self)))
                  = cur' :: rest ++ queued) by exact Hqueued.
    split; [exact Hq2|]. split; [reflexivity|].
    split; [unfold _run_send_step; by destruct (stopping _)|].
    unfold _run_send_step. rewrite Hq2, Hagain.
    destruct (again serial) as [[]|e].
    + eexists _, _. split; [reflexivity|]. split; [done|discriminate].
    + destruct e; eexists _, _; (split; [reflexivity|]);
        (split; [discriminate|]); try discriminate. done.
Qed.

Lemma failed_write_keeps_head_witness :
  exists self',
    run_send_iter (put hello_frame listening) (fun _ => Raise socket_error)
      = Some (Ok self') /\
    send_q self'
      = [mkFrame "SEND"
           (Some [("destination", PyStr "/queue/x"); ("content-length", PyInt 5)])
           "hello"] /\
    sock_ready self' = false /\ sock_broken self' = true.
Proof.
  destruct (failed_write_keeps_head (put hello_frame listening) hello_frame []
              _ _ (fun _ => Raise socket_error) eq_refl eq_refl)
    as [H _].
  destruct (H eq_refl) as (self' & H1 & H2 & _ & _ & _ & H3 & H4).
  exists self'. auto.
Defined.
